(** * Five-card-draw poker session engine (backend/poker)

    A shallow embedding of [poker/models.py], [poker/services.py] and the
    request gates of [poker/serializers.py] and [poker/views.py], with the
    properties of the session state machine proved about it.

    Conventions of the embedding.
    - Python integers are unbounded: [Z].  Choice fields ([phase], [status],
      [suit], [rank]) are enumerations; free text ([winner], [winning_hand],
      opponent names, the [action] argument of the service) is [string].
    - A game with its one-to-one player row, that player's card rows and the
      game's opponent rows is one [Session].  The card rows are kept in the
      order in which [player.cards.all().order_by('position')] returns them.
    - The service methods mutate objects and raise exceptions.  They are
      written in a state-and-exception monad: an attribute assignment is a
      state update, [raise] stops the run and hands back the state as it is
      at that point.  So "nothing was mutated before the error" is a
      statement about the order of the source's statements.
    - [random] and [uuid4] read an entropy tape carried by the state;
      [auto_now] reads the request's clock. *)

From Stdlib Require Import ZArith List Lia.
From stdpp Require Import gmap strings list pretty sorting.

Local Open Scope string_scope.
Local Open Scope Z_scope.

(** ** models.py *)

Inductive Phase := Betting | Drawing | Showdown | Finished.
Inductive Status := Active | Folded | AllIn.
Inductive Suit := hearts | diamonds | clubs | spades.
Inductive Rank := R2 | R3 | R4 | R5 | R6 | R7 | R8 | R9 | R10 | RJ | RQ | RK | RA.

#[global] Instance Phase_eq_dec : EqDecision Phase.
Proof. solve_decision. Defined.
#[global] Instance Status_eq_dec : EqDecision Status.
Proof. solve_decision. Defined.
#[global] Instance Suit_eq_dec : EqDecision Suit.
Proof. solve_decision. Defined.
#[global] Instance Rank_eq_dec : EqDecision Rank.
Proof. solve_decision. Defined.

(** The primary key of a game: the 128-bit value of its UUID. *)
Abbreviation UUID := N.

Module Game.
Record t := mk {
  id : UUID;
  phase : Phase;
  pot : Z;
  current_bet : Z;
  winner : option string;
  winning_hand : option string;
  can_call : bool;
  can_raise : bool;
  can_fold : bool;
  created_at : Z;
  updated_at : Z
}.

Definition set_phase (p : Phase) (g : t) : t :=
  mk (id g) p (pot g) (current_bet g) (winner g) (winning_hand g)
     (can_call g) (can_raise g) (can_fold g) (created_at g) (updated_at g).
Definition set_pot (x : Z) (g : t) : t :=
  mk (id g) (phase g) x (current_bet g) (winner g) (winning_hand g)
     (can_call g) (can_raise g) (can_fold g) (created_at g) (updated_at g).
Definition set_current_bet (x : Z) (g : t) : t :=
  mk (id g) (phase g) (pot g) x (winner g) (winning_hand g)
     (can_call g) (can_raise g) (can_fold g) (created_at g) (updated_at g).
Definition set_winner (w : option string) (g : t) : t :=
  mk (id g) (phase g) (pot g) (current_bet g) w (winning_hand g)
     (can_call g) (can_raise g) (can_fold g) (created_at g) (updated_at g).
Definition set_winning_hand (h : option string) (g : t) : t :=
  mk (id g) (phase g) (pot g) (current_bet g) (winner g) h
     (can_call g) (can_raise g) (can_fold g) (created_at g) (updated_at g).
Definition set_updated_at (x : Z) (g : t) : t :=
  mk (id g) (phase g) (pot g) (current_bet g) (winner g) (winning_hand g)
     (can_call g) (can_raise g) (can_fold g) (created_at g) x.
End Game.

Module Player.
Record t := mk {
  chips : Z;
  has_folded : bool;
  current_bet : Z
}.

Definition set_chips (x : Z) (p : t) : t := mk x (has_folded p) (current_bet p).
Definition set_has_folded (b : bool) (p : t) : t := mk (chips p) b (current_bet p).
Definition set_current_bet (x : Z) (p : t) : t := mk (chips p) (has_folded p) x.
End Player.

Module Card.
Record t := mk {
  suit : Suit;
  rank : Rank;
  selected : bool;
  position : Z
}.

Definition set_suit (s : Suit) (c : t) : t := mk s (rank c) (selected c) (position c).
Definition set_rank (r : Rank) (c : t) : t := mk (suit c) r (selected c) (position c).
End Card.

Module Opponent.
Record t := mk {
  name : string;
  chips : Z;
  status : Status;
  card_count : Z;
  current_bet : Z
}.
End Opponent.

(** A game row together with the rows that hang off it. *)
Record Session := mkSession {
  game : Game.t;
  player : Player.t;
  cards : list Card.t;
  opponents : list Opponent.t
}.

Definition set_game (g : Game.t) (s : Session) : Session :=
  mkSession g (player s) (cards s) (opponents s).
Definition set_player (p : Player.t) (s : Session) : Session :=
  mkSession (game s) p (cards s) (opponents s).
Definition set_cards (cs : list Card.t) (s : Session) : Session :=
  mkSession (game s) (player s) cs (opponents s).

(** ** Exceptions, state, and the monad the services run in *)

Inductive Exception :=
| ValueError (msg : string)
| IndexError (msg : string)
| IntegrityError.

Inductive Result (A : Type) :=
| Returned (a : A)
| Raised (e : Exception).
Arguments Returned {A} a.
Arguments Raised {A} e.

(** What a run can read and write: the data [T] it works on, the entropy
    tape behind [random] and [uuid4], and the clock behind [auto_now]. *)
Record St (T : Type) := mkSt {
  data : T;
  rng : list nat;
  now : Z
}.
Arguments mkSt {T} data rng now.
Arguments data {T} s.
Arguments rng {T} s.
Arguments now {T} s.

Definition M (T A : Type) : Type := St T → St T * Result A.

#[global] Instance M_ret {T} : MRet (M T) := λ A a st, (st, Returned a).
#[global] Instance M_bind {T} : MBind (M T) := λ A B f m st,
  match m st with
  | (st', Returned a) => f a st'
  | (st', Raised e) => (st', Raised e)
  end.

Definition raise {T A} (e : Exception) : M T A := λ st, (st, Raised e).
Definition gets {T A} (f : T → A) : M T A := λ st, (st, Returned (f (data st))).
Definition modify {T} (f : T → T) : M T unit :=
  λ st, (mkSt (f (data st)) (rng st) (now st), Returned tt).
Definition timezone_now {T} : M T Z := λ st, (st, Returned (now st)).

(** [for x in xs: body x] *)
Fixpoint for_each {T A} (xs : list A) (body : A → M T unit) : M T unit :=
  match xs with
  | [] => mret tt
  | x :: xs' => body x ;; for_each xs' body
  end.

(** [enumerate(xs)], counting from [i]. *)
Fixpoint enumerate_from {A} (i : nat) (xs : list A) : list (nat * A) :=
  match xs with
  | [] => []
  | x :: xs' => (i, x) :: enumerate_from (S i) xs'
  end.
Definition enumerate {A} (xs : list A) : list (nat * A) := enumerate_from 0 xs.

(** ** The [random] module *)

(** The next entry of the entropy tape.  A tape that has run out reads
    as zeros. *)
Definition next_entropy {T} : M T nat := λ st,
  match rng st with
  | [] => (st, Returned 0%nat)
  | k :: tape => (mkSt (data st) tape (now st), Returned k)
  end.

(** [random._randbelow(n)] *)
Definition randbelow {T} (n : nat) : M T nat :=
  k ← next_entropy; mret (k mod n)%nat.

(** [random.choice(seq)] raises [IndexError] on an empty sequence. *)
Definition choice {T A} (seq : list A) : M T A :=
  match seq with
  | [] => raise (IndexError "Cannot choose from an empty sequence")
  | x :: _ => k ← randbelow (length seq); mret (nth k seq x)
  end.

(** [random.randint(a, b)] is [a + randbelow(b - a + 1)]. *)
Definition randint {T} (a b : Z) : M T Z :=
  k ← randbelow (Z.to_nat (b - a + 1)); mret (a + Z.of_nat k).

(** [random.shuffle(x)]: for [i] from [len(x) - 1] down to [1], swap
    [x[i]] with [x[randbelow(i + 1)]]. *)
Definition swap {A} (i j : nat) (x : list A) : list A :=
  match x !! i, x !! j with
  | Some a, Some b => <[j := a]> (<[i := b]> x)
  | _, _ => x
  end.

Fixpoint shuffle_from {T A} (i : nat) (x : list A) : M T (list A) :=
  match i with
  | O => mret x
  | S i' => j ← randbelow (S i); shuffle_from i' (swap i j x)
  end.

Definition shuffle {T A} (x : list A) : M T (list A) :=
  shuffle_from (length x - 1) x.

(** ** Python list indexing *)

(** [seq[i]]: a negative index counts from the end; out of range raises
    [IndexError]. *)
Definition py_index {A} (seq : list A) (i : Z) : option nat :=
  let n := Z.of_nat (length seq) in
  if decide (0 ≤ i < n) then Some (Z.to_nat i)
  else if decide (- n ≤ i < 0) then Some (Z.to_nat (n + i))
  else None.

Definition locate {T A} (seq : list A) (i : Z) : M T nat :=
  match py_index seq i with
  | Some n => mret n
  | None => raise (IndexError "list index out of range")
  end.

Definition getitem {T A} (seq : list A) (i : Z) : M T A :=
  n ← locate seq i;
  match seq !! n with
  | Some x => mret x
  | None => raise (IndexError "list index out of range")
  end.

(** [sorted(xs)] on integers. *)
Definition sorted (xs : list Z) : list Z := merge_sort Z.le xs.

(** ** services.py: [GameService] *)

Definition SUITS : list Suit := [hearts; diamonds; clubs; spades].
Definition RANKS : list Rank :=
  [R2; R3; R4; R5; R6; R7; R8; R9; R10; RJ; RQ; RK; RA].

Definition modify_game (f : Game.t → Game.t) : M Session unit :=
  modify (λ s, set_game (f (game s)) s).
Definition modify_player (f : Player.t → Player.t) : M Session unit :=
  modify (λ s, set_player (f (player s)) s).
Definition modify_cards (f : list Card.t → list Card.t) : M Session unit :=
  modify (λ s, set_cards (f (cards s)) s).

(** [game.save()]: the row is written and [updated_at] ([auto_now]) is
    refreshed. *)
Definition save_game : M Session unit :=
  t ← timezone_now; modify_game (Game.set_updated_at t).

(** Python truthiness of the optional [amount]: [None] and [0] are false. *)
Definition truthy (amount : option Z) : bool :=
  match amount with
  | None => false
  | Some a => negb (a =? 0)
  end.

Definition winning_hands : list string :=
  [ "Royal Flush"; "Straight Flush"; "Four of a Kind";
    "Full House"; "Flush"; "Straight"; "Three of a Kind";
    "Two Pair"; "Pair of Aces"; "Pair of Kings"; "High Card" ].

Definition active_opponents (s : Session) : list Opponent.t :=
  filter (λ o, Opponent.status o = Active) (opponents s).

Definition _determine_winner : M Session unit :=
  active ← gets active_opponents;
  let possible_winners := "player" :: map Opponent.name active in
  p ← gets player;
  (if negb (Player.has_folded p) then
     w ← choice possible_winners;
     modify_game (Game.set_winner (Some w))
   else
     match active with
     | [] => mret tt
     | _ :: _ =>
         o ← choice active;
         modify_game (Game.set_winner (Some (Opponent.name o)))
     end) ;;
  h ← choice winning_hands;
  modify_game (Game.set_winning_hand (Some h)).

(** [process_bet_action(game, action, amount=None)]; the [game] argument
    is the session the run works on, the returned value the game row. *)
Definition process_bet_action (action : string) (amount : option Z)
  : M Session Game.t :=
  g ← gets game;
  if decide (Game.phase g ≠ Betting) then
    raise (ValueError "Cannot bet when not in betting phase")
  else
    p ← gets player;
    (if decide (action = "fold") then
       modify_player (Player.set_has_folded true) ;;
       modify_game (Game.set_phase Finished) ;;
       w ← choice ["Computer 1"; "Computer 2"; "Computer 3"];
       modify_game (Game.set_winner (Some w)) ;;
       modify_game (Game.set_winning_hand (Some "Pair of Kings"))
     else if decide (action = "call") then
       let bet_amount := Game.current_bet g in
       if decide (Player.chips p < bet_amount) then
         raise (ValueError "Insufficient chips to call")
       else
         modify_player (Player.set_chips (Player.chips p - bet_amount)) ;;
         modify_player (Player.set_current_bet bet_amount) ;;
         modify_game (Game.set_pot (Game.pot g + bet_amount)) ;;
         modify_game (Game.set_phase Drawing)
     else if decide (action = "raise") then
       match amount with
       | Some a =>
           if negb (truthy amount) then
             raise (ValueError "Amount required for raise")
           else if decide (a < 0) then
             raise (ValueError "Raise amount must be positive")
           else if decide (Player.chips p < a) then
             raise (ValueError "Insufficient chips to raise")
           else
             modify_player (Player.set_chips (Player.chips p - a)) ;;
             modify_player (Player.set_current_bet a) ;;
             modify_game (Game.set_pot (Game.pot g + a)) ;;
             modify_game (Game.set_current_bet (Z.max (Game.current_bet g) a))
       | None => raise (ValueError "Amount required for raise")
       end
     else mret tt) ;;
    save_game ;;
    gets game.

(** The 52-card deck without the cards in [excluded], in the order of the
    source's comprehension (suits outside, ranks inside). *)
Definition deck_without (excluded : list (Suit * Rank)) : list (Suit * Rank) :=
  s ← SUITS; r ← RANKS;
  if decide ((s, r) ∈ excluded) then [] else [(s, r)].

(** One turn of the replacement loop: [card = cards[index]],
    [suit, rank = deck[i]], the two assignments and [card.save()]. *)
Definition replace_card (deck : list (Suit * Rank)) (entry : nat * Z)
  : M Session unit :=
  let '(i, index) := entry in
  cs ← gets cards;
  n ← locate cs index;
  '(suit, rank) ← getitem deck (Z.of_nat i);
  modify_cards (alter (λ card, Card.set_rank rank (Card.set_suit suit card)) n).

(** [process_draw_action(game, discard_indices)] *)
Definition process_draw_action (discard_indices : list Z) : M Session Game.t :=
  g ← gets game;
  if decide (Game.phase g ≠ Drawing) then
    raise (ValueError "Cannot draw when not in drawing phase")
  else
    cs ← gets cards;
    for_each discard_indices (λ index,
      if decide (index < 0 ∨ index >= Z.of_nat (length cs)) then
        raise (ValueError ("Invalid card index: " +:+ pretty index))
      else mret tt) ;;
    match discard_indices with
    | [] => mret tt
    | _ :: _ =>
        let current_cards := map (λ c, (Card.suit c, Card.rank c)) cs in
        deck ← shuffle (deck_without current_cards);
        for_each (enumerate (sorted discard_indices)) (replace_card deck)
    end ;;
    modify_game (Game.set_phase Finished) ;;
    _determine_winner ;;
    save_game ;;
    gets game.

(** [_deal_initial_cards(player)]: the first five cards of a shuffled full
    deck, at positions 0 to 4; the result is the list of created rows. *)
Definition _deal_initial_cards {T} : M T (list Card.t) :=
  deck ← shuffle (deck_without []);
  mapM (λ i, '(suit, rank) ← getitem deck (Z.of_nat i);
             mret (Card.mk suit rank false (Z.of_nat i)))
       (seq 0 5).

(** ** The session store: the game table, keyed by primary key *)

Abbreviation Store := (gmap UUID Session).

(** [uuid.uuid4()] *)
Definition uuid4 {T} : M T UUID := k ← next_entropy; mret (N.of_nat k).

(** [create_new_game()].  The rows are inserted as one session; an
    insert under a primary key that is taken raises [IntegrityError]. *)
Definition create_new_game : M Store Game.t :=
  pk ← uuid4;
  t ← timezone_now;
  taken ← gets (λ db : Store, db !! pk);
  match taken with
  | Some _ => raise IntegrityError
  | None =>
      let game := Game.mk pk Betting 0 10 None None true true true t t in
      let player := Player.mk 1000 false 0 in
      let opponent_names := ["Computer 1"; "Computer 2"; "Computer 3"] in
      opps ← mapM (λ name, chips ← randint 800 1200;
                           mret (Opponent.mk name chips Active 5 0))
                  opponent_names;
      hand ← _deal_initial_cards;
      modify (λ db : Store, <[pk := mkSession game player hand opps]> db) ;;
      mret game
  end.

(** [get_game_state(game_id)] *)
Definition get_game_state (game_id : UUID) : M Store Game.t :=
  row ← gets (λ db : Store, db !! game_id);
  match row with
  | Some s => mret (game s)
  | None => raise (ValueError "Game not found")
  end.

(** Running a service method on the game with primary key [pk]: the method
    works on that session, and the store holds what the method left. *)
Definition with_game {A} (pk : UUID) (method : M Session A) : M Store A := λ st,
  match data st !! pk with
  | None => (st, Raised (ValueError "Game not found"))
  | Some s =>
      let '(st', r) := method (mkSt s (rng st) (now st)) in
      (mkSt (<[pk := data st']> (data st)) (rng st') (now st'), r)
  end.

(** ** serializers.py and views.py: the gate in front of a draw *)

(** [DrawActionSerializer]: [discardIndices] is required, holds at most
    five integers, each between 0 and 4, and
    [len(value) == len(set(value))].  The result is the validated data,
    [None] when [is_valid()] is false. *)
Definition DrawActionSerializer (request_data : option (list Z)) : option (list Z) :=
  match request_data with
  | None => None
  | Some value =>
      if decide (Forall (λ i, 0 ≤ i ≤ 4) value
                 ∧ (length value ≤ 5)%nat
                 ∧ length value = size (list_to_set value : gset Z))
      then Some value
      else None
  end.

Inductive Body :=
| GameState (s : Session)
| ErrorBody (error : string).

Record Response := mkResponse {
  body : Body;
  status_code : nat
}.

(** [try: ... except ...]: the outcome of the block as a value. *)
Definition attempt {T A} (block : M T A) : M T (Result A) := λ st,
  let '(st', r) := block st in (st', Returned r).

(** [GameViewSet.draw(request, pk)]; [pk] is [None] when [uuid.UUID(pk)]
    rejects the path segment. *)
Definition draw (pk : option UUID) (request_data : option (list Z))
  : M Store Response :=
  match pk with
  | None => mret (mkResponse (ErrorBody "Invalid game ID format") 400)
  | Some pk =>
      found ← attempt (get_game_state pk);
      match found with
      | Raised (ValueError _) => mret (mkResponse (ErrorBody "Game not found") 404)
      | Raised e => raise e
      | Returned game =>
          match DrawActionSerializer request_data with
          | None => mret (mkResponse (ErrorBody "Invalid draw action") 400)
          | Some discard_indices =>
              if decide (Game.phase game ≠ Drawing) then
                mret (mkResponse (ErrorBody "Cannot draw in current game phase") 400)
              else if decide (Game.phase game = Finished) then
                mret (mkResponse (ErrorBody "Game is already finished") 400)
              else
                outcome ← attempt (with_game pk (process_draw_action discard_indices ;;
                                             gets (λ s : Session, s)));
                match outcome with
                | Returned s => mret (mkResponse (GameState s) 200)
                | Raised (ValueError msg) => mret (mkResponse (ErrorBody msg) 400)
                | Raised _ =>
                    mret (mkResponse (ErrorBody "Failed to process draw action") 500)
                end
          end
      end
  end.

(** ** serializers.py and views.py: the other endpoints *)

(** The body of a bet request: the fields it carries, if any. *)
Record BetRequest := mkBetRequest {
  req_action : option string;
  req_amount : option Z
}.

(** [BetActionSerializer]: [action] is required and one of the three
    choices; [amount] is optional and at least 1 when present; a raise
    must carry an amount.  The result is the validated data, [None] when
    [is_valid()] is false. *)
Definition BetActionSerializer (request_data : BetRequest)
  : option (string * option Z) :=
  match req_action request_data with
  | None => None
  | Some action =>
      if decide (action ∈ ["call"; "raise"; "fold"]) then
        match req_amount request_data with
        | Some amount =>
            if decide (1 ≤ amount) then Some (action, Some amount) else None
        | None =>
            if decide (action = "raise") then None else Some (action, None)
        end
      else None
  end.

(** [GameViewSet.create(request)] *)
Definition create : M Store Response :=
  outcome ← attempt (game ← create_new_game;
                     with_game (Game.id game) (gets (λ s : Session, s)));
  match outcome with
  | Returned s => mret (mkResponse (GameState s) 201)
  | Raised _ => mret (mkResponse (ErrorBody "Failed to create game") 500)
  end.

(** [GameViewSet.retrieve(request, pk)] *)
Definition retrieve (pk : option UUID) : M Store Response :=
  match pk with
  | None => mret (mkResponse (ErrorBody "Invalid game ID format") 400)
  | Some pk =>
      found ← attempt (get_game_state pk ;;
                       with_game pk (gets (λ s : Session, s)));
      match found with
      | Returned s => mret (mkResponse (GameState s) 200)
      | Raised (ValueError _) => mret (mkResponse (ErrorBody "Game not found") 404)
      | Raised e => raise e
      end
  end.

(** [GameViewSet.bet(request, pk)] *)
Definition bet (pk : option UUID) (request_data : BetRequest) : M Store Response :=
  match pk with
  | None => mret (mkResponse (ErrorBody "Invalid game ID format") 400)
  | Some pk =>
      found ← attempt (get_game_state pk);
      match found with
      | Raised (ValueError _) => mret (mkResponse (ErrorBody "Game not found") 404)
      | Raised e => raise e
      | Returned game =>
          match BetActionSerializer request_data with
          | None => mret (mkResponse (ErrorBody "Invalid bet action") 400)
          | Some (action, amount) =>
              if decide (Game.phase game ≠ Betting) then
                mret (mkResponse (ErrorBody "Cannot bet in current game phase") 400)
              else if decide (Game.phase game = Finished) then
                mret (mkResponse (ErrorBody "Game is already finished") 400)
              else
                outcome ← attempt (with_game pk (process_bet_action action amount ;;
                                                 gets (λ s : Session, s)));
                match outcome with
                | Returned s => mret (mkResponse (GameState s) 200)
                | Raised (ValueError msg) => mret (mkResponse (ErrorBody msg) 400)
                | Raised _ =>
                    mret (mkResponse (ErrorBody "Failed to process bet action") 500)
                end
          end
      end
  end.

(** ** Sequences of engine calls *)

Inductive Operation :=
| CreateGame
| ApplyBet (pk : UUID) (action : string) (amount : option Z)
| ApplyDraw (pk : UUID) (discard_indices : list Z)
| GetState (pk : UUID).

(** A call is an operation together with the entropy and the clock of the
    moment it runs at. *)
Record Call := mkCall {
  operation : Operation;
  entropy : list nat;
  time : Z
}.

(** The caller looks the game up and hands it to the service method, as
    the views do. *)
Definition perform (o : Operation) : M Store Game.t :=
  match o with
  | CreateGame => create_new_game
  | ApplyBet pk action amount =>
      get_game_state pk ;; with_game pk (process_bet_action action amount)
  | ApplyDraw pk discard_indices =>
      get_game_state pk ;; with_game pk (process_draw_action discard_indices)
  | GetState pk => get_game_state pk
  end.

Definition step (db : Store) (c : Call) : Store :=
  data (perform (operation c) (mkSt db (entropy c) (time c))).1.

Definition run_calls (db : Store) (calls : list Call) : Store :=
  foldl step db calls.

(** The sessions the engine can produce: those found in a store grown from
    the empty one by engine calls. *)
Definition engine_session (s : Session) : Prop :=
  ∃ calls pk, run_calls ∅ calls !! pk = Some s.

(** The order of the phases, as [PHASE_CHOICES] lists them. *)
Definition phase_rank (p : Phase) : nat :=
  match p with
  | Betting => 0
  | Drawing => 1
  | Showdown => 2
  | Finished => 3
  end.

Definition phase_le (p q : Phase) : Prop := (phase_rank p ≤ phase_rank q)%nat.

(** * Vocabulary of the statements *)

(** ** Reading a state *)

Definition phase_of (st : St Session) : Phase := Game.phase (game (data st)).
Definition pot_of (st : St Session) : Z := Game.pot (game (data st)).
Definition table_bet_of (st : St Session) : Z := Game.current_bet (game (data st)).
Definition chips_of (st : St Session) : Z := Player.chips (player (data st)).
Definition seat_bet_of (st : St Session) : Z := Player.current_bet (player (data st)).
Definition folded_of (st : St Session) : bool := Player.has_folded (player (data st)).
Definition winner_of (st : St Session) : option string := Game.winner (game (data st)).
Definition opponent_names (s : Session) : list string := map Opponent.name (opponents s).

(** ** What a run may do to the data

    [within R m]: every run of [m], returning or raising, takes the data
    from [s] to some [s'] with [R s s'].  For a reflexive and transitive
    [R] this goes through sequencing, branching and loops. *)
Definition within {T A} (R : T → T → Prop) (m : M T A) : Prop :=
  ∀ st, R (data st) (data (m st).1).

(** The opponent rows are the same. *)
Definition same_opponents (s s' : Session) : Prop := opponents s' = opponents s.

(** The phase is the same, or it has become Finished. *)
Definition stays_or_finishes (s s' : Session) : Prop :=
  Game.phase (game s') = Game.phase (game s) ∨ Game.phase (game s') = Finished.

(** The data is the same. *)
Definition untouched {T} (s s' : T) : Prop := s' = s.

(** One service call, at some moment, took the session from [s] to [s'],
    or nothing happened to it. *)
Definition session_move (s s' : Session) : Prop :=
  s' = s
  ∨ (∃ action amount tape t,
       s' = data (process_bet_action action amount (mkSt s tape t)).1)
  ∨ (∃ discard_indices tape t,
       s' = data (process_draw_action discard_indices (mkSt s tape t)).1).

(** The table [create_new_game] lays. *)
Definition freshly_created (s : Session) : Prop :=
  Game.phase (game s) = Betting
  ∧ Game.pot (game s) = 0
  ∧ Game.current_bet (game s) = 10
  ∧ Game.winner (game s) = None
  ∧ player s = Player.mk 1000 false 0
  ∧ opponent_names s = ["Computer 1"; "Computer 2"; "Computer 3"]
  ∧ Forall (λ o, Opponent.status o = Active
                 ∧ 800 ≤ Opponent.chips o ≤ 1200) (opponents s)
  ∧ length (cards s) = 5%nat.

(** An index the draw refuses for a hand of [n] cards. *)
Definition out_of_range (n : nat) (index : Z) : Prop :=
  index < 0 ∨ index >= Z.of_nat n.

(** ** Vocabulary of the further properties *)

(** The suit and rank of every card of a hand, in position order. *)
Definition faces (cs : list Card.t) : list (Suit * Rank) :=
  map (λ c, (Card.suit c, Card.rank c)) cs.

(** What a bet or a draw never changes about a card: its slot and its
    selection mark. *)
Definition slots (cs : list Card.t) : list (Z * bool) :=
  map (λ c, (Card.position c, Card.selected c)) cs.

(** A draw's loop may rewrite faces, and nothing else: the game row, the
    player row, the opponent rows, and every card's slot and mark stay. *)
Definition only_faces_differ (s s' : Session) : Prop :=
  game s' = game s
  ∧ player s' = player s
  ∧ opponents s' = opponents s
  ∧ slots (cards s') = slots (cards s).

(** What no draw changes: the player row, the opponent rows, the stakes
    and the identity of the game, and every card's slot and mark. *)
Definition stakes_and_slots_kept (s s' : Session) : Prop :=
  player s' = player s
  ∧ opponents s' = opponents s
  ∧ Game.id (game s') = Game.id (game s)
  ∧ Game.pot (game s') = Game.pot (game s)
  ∧ Game.current_bet (game s') = Game.current_bet (game s)
  ∧ Game.created_at (game s') = Game.created_at (game s)
  ∧ slots (cards s') = slots (cards s).

(** Every index is a position of a hand of [n] cards. *)
Definition in_range (n : nat) (indices : list Z) : Prop :=
  Forall (λ index, 0 ≤ index < Z.of_nat n) indices.

(** What every session the engine produces satisfies. *)
Definition well_formed (s : Session) : Prop :=
  Player.chips (player s) + Game.pot (game s) = 1000
  ∧ 0 ≤ Player.chips (player s)
  ∧ 0 ≤ Game.pot (game s)
  ∧ 10 ≤ Game.current_bet (game s)
  ∧ length (cards s) = 5%nat
  ∧ NoDup (faces (cards s))
  ∧ slots (cards s) = [(0, false); (1, false); (2, false); (3, false); (4, false)]
  ∧ opponent_names s = ["Computer 1"; "Computer 2"; "Computer 3"]
  ∧ Forall (λ o, Opponent.status o = Active
                 ∧ 800 ≤ Opponent.chips o ≤ 1200
                 ∧ Opponent.card_count o = 5
                 ∧ Opponent.current_bet o = 0) (opponents s)
  ∧ Game.phase (game s) ≠ Showdown
  ∧ (Player.has_folded (player s) = true → Game.phase (game s) = Finished)
  ∧ (Game.phase (game s) = Finished ↔ is_Some (Game.winner (game s))).

(** ** Sessions to try the statements on *)

Definition sample_hand : list Card.t :=
  [ Card.mk hearts RA false 0; Card.mk spades RK false 1;
    Card.mk diamonds RQ false 2; Card.mk clubs RJ false 3;
    Card.mk hearts R10 false 4 ].

Definition sample_opponents : list Opponent.t :=
  [ Opponent.mk "Computer 1" 900 Active 5 0;
    Opponent.mk "Computer 2" 1000 Active 5 0;
    Opponent.mk "Computer 3" 1100 Active 5 0 ].

Definition sample_session (ph : Phase) (chips : Z) : Session :=
  mkSession (Game.mk 1 ph 0 10 None None true true true 0 0)
            (Player.mk chips false 0) sample_hand sample_opponents.

Definition sample_state (ph : Phase) (chips : Z) : St Session :=
  mkSt (sample_session ph chips) [4; 8; 15; 16; 23; 42]%nat 60.


(** The session [create_new_game] lays under the primary key 7 from the
    tape [7; 100; 200; 300] at time 50. *)
Definition dealt_session : Session :=
  mkSession (Game.mk 7 Betting 0 10 None None true true true 50 50)
            (Player.mk 1000 false 0)
            [ Card.mk hearts R3 false 0; Card.mk hearts R4 false 1;
              Card.mk hearts R5 false 2; Card.mk hearts R6 false 3;
              Card.mk hearts R7 false 4 ]
            sample_opponents.

Definition dealing_call : Call := mkCall CreateGame [7; 100; 200; 300]%nat 50.

(** [dealt_session] after a call at time 51. *)
Definition called_session : Session :=
  mkSession (Game.mk 7 Drawing 10 10 None None true true true 50 51)
            (Player.mk 990 false 10) (cards dealt_session) sample_opponents.


(** * Properties *)

Ltac unfold_readers :=
  unfold phase_of, pot_of, table_bet_of, chips_of, seat_bet_of, folded_of,
    winner_of in *.

Ltac unfold_monad :=
  unfold mbind, M_bind, mret, M_ret, raise, gets, modify_game, modify_player,
    modify_cards, modify, save_game, timezone_now in *.

(** Picks the state a run ended in as the witness of [∃ st', run = ...]. *)
Ltac exists_final_state :=
  cbv zeta;
  match goal with
  | |- ∃ st', (?final, _) = _ ∧ _ => exists final; split; [reflexivity |]
  end.

(** Runs the straight-line part of a service method: unfolds the monad,
    and decides the guards from the hypotheses. *)
Ltac run_method :=
  unfold_readers; unfold_monad; cbn in *;
  repeat (case_decide; try (congruence || lia); cbn in *).

(** ** Sequencing *)

Section Within.
Context {T : Type} (R : T → T → Prop).
Hypothesis R_refl : ∀ s, R s s.
Hypothesis R_trans : ∀ s1 s2 s3, R s1 s2 → R s2 s3 → R s1 s3.

Lemma within_ret {A} (a : A) : within R (mret a : M T A).
Proof using R_refl. intros st. apply R_refl. Qed.

Lemma within_raise {A} e : within R (raise e : M T A).
Proof using R_refl. intros st. apply R_refl. Qed.

Lemma within_gets {A} (f : T → A) : within R (gets f).
Proof using R_refl. intros st. apply R_refl. Qed.

Lemma within_timezone_now : within R (timezone_now : M T Z).
Proof using R_refl. intros st. apply R_refl. Qed.

Lemma within_modify (f : T → T) : (∀ s, R s (f s)) → within R (modify f).
Proof. intros Hf st. apply Hf. Qed.

Lemma within_bind {A B} (m : M T A) (k : A → M T B) :
  within R m → (∀ a, within R (k a)) → within R (m ≫= k).
Proof using R_trans.
  intros Hm Hk st. unfold mbind, M_bind.
  specialize (Hm st). destruct (m st) as [st1 [a|e]]; cbn in *; [| done].
  eapply R_trans; [exact Hm | apply Hk].
Qed.

Lemma within_next_entropy : within R (next_entropy : M T nat).
Proof using R_refl.
  intros st. unfold next_entropy. destruct (rng st); apply R_refl.
Qed.

Lemma within_randbelow n : within R (randbelow n : M T nat).
Proof using R_refl R_trans.
  apply within_bind; [apply within_next_entropy | intros; apply within_ret].
Qed.

Lemma within_choice {A} (seq : list A) : within R (choice seq : M T A).
Proof using R_refl R_trans.
  destruct seq; [apply within_raise |].
  apply within_bind; [apply within_randbelow | intros; apply within_ret].
Qed.

Lemma within_randint a b : within R (randint a b : M T Z).
Proof using R_refl R_trans.
  apply within_bind; [apply within_randbelow | intros; apply within_ret].
Qed.

Lemma within_shuffle_from {A} i (x : list A) : within R (shuffle_from i x : M T (list A)).
Proof using R_refl R_trans.
  revert x. induction i as [|i IH]; intros x; [apply within_ret |].
  apply within_bind; [apply within_randbelow | intros; apply IH].
Qed.

Lemma within_shuffle {A} (x : list A) : within R (shuffle x : M T (list A)).
Proof using R_refl R_trans. apply within_shuffle_from. Qed.

Lemma within_locate {A} (seq : list A) i : within R (locate seq i : M T nat).
Proof using R_refl.
  unfold locate. destruct (py_index seq i); [apply within_ret | apply within_raise].
Qed.

Lemma within_getitem {A} (seq : list A) i : within R (getitem seq i : M T A).
Proof using R_refl R_trans.
  apply within_bind; [apply within_locate |].
  intros n. destruct (seq !! n); [apply within_ret | apply within_raise].
Qed.

Lemma within_for_each {A} (xs : list A) (body : A → M T unit) :
  (∀ x, within R (body x)) → within R (for_each xs body).
Proof using R_refl R_trans.
  intros Hbody. induction xs as [|x xs IH]; [apply within_ret |].
  apply within_bind; [apply Hbody | intros; apply IH].
Qed.

Lemma within_mapM {A B} (f : A → M T B) (xs : list A) :
  (∀ x, within R (f x)) → within R (mapM f xs).
Proof using R_refl R_trans.
  intros Hf. induction xs as [|x xs IH]; [apply within_ret |].
  cbn. apply within_bind; [apply Hf | intros b].
  apply within_bind; [apply IH | intros; apply within_ret].
Qed.

Lemma within_attempt {A} (m : M T A) : within R m → within R (attempt m).
Proof.
  intros Hm st. unfold attempt. specialize (Hm st). by destruct (m st).
Qed.
End Within.

(** Walks through a method, statement by statement; [side] settles what
    is asked of [R]: reflexivity, transitivity, and that a write is an
    [R]-step. *)
Ltac within_walk side :=
  repeat first
    [ apply within_ret; side
    | apply within_raise; side
    | apply within_gets; side
    | apply within_timezone_now; side
    | apply within_choice; side
    | apply within_shuffle; side
    | apply within_randint; side
    | apply within_locate; side
    | apply within_getitem; side
    | apply within_for_each; [side | side | intros]
    | apply within_bind; [side | | intros]
    | apply within_modify; side
    | case_decide
    | case_match
    | progress unfold modify_game, modify_player, modify_cards, save_game ].

(** ** Frame: the opponent rows *)

Ltac same_opponents_side :=
  unfold same_opponents; intros; cbn; congruence.

Lemma _determine_winner_same_opponents : within same_opponents _determine_winner.
Proof. unfold _determine_winner. within_walk same_opponents_side. Qed.

Lemma process_bet_action_same_opponents action amount :
  within same_opponents (process_bet_action action amount).
Proof. unfold process_bet_action. within_walk same_opponents_side. Qed.

Lemma replace_card_same_opponents deck entry :
  within same_opponents (replace_card deck entry).
Proof. unfold replace_card. within_walk same_opponents_side. Qed.

Lemma process_draw_action_same_opponents discard_indices :
  within same_opponents (process_draw_action discard_indices).
Proof.
  unfold process_draw_action.
  within_walk same_opponents_side;
    solve [ apply replace_card_same_opponents
          | apply _determine_winner_same_opponents ].
Qed.

Lemma session_move_same_opponents s s' :
  session_move s s' → opponents s' = opponents s.
Proof.
  intros [-> | [(action & amount & tape & t & ->) | (idxs & tape & t & ->)]].
  - reflexivity.
  - apply (process_bet_action_same_opponents action amount (mkSt s tape t)).
  - apply (process_draw_action_same_opponents idxs (mkSt s tape t)).
Qed.

(** ** The phase during a draw *)

Ltac stays_or_finishes_side :=
  unfold stays_or_finishes; intros; cbn; intuition congruence.

Lemma _determine_winner_stays_or_finishes : within stays_or_finishes _determine_winner.
Proof. unfold _determine_winner. within_walk stays_or_finishes_side. Qed.

Lemma replace_card_stays_or_finishes deck entry :
  within stays_or_finishes (replace_card deck entry).
Proof. unfold replace_card. within_walk stays_or_finishes_side. Qed.

Lemma process_draw_action_stays_or_finishes discard_indices :
  within stays_or_finishes (process_draw_action discard_indices).
Proof.
  unfold process_draw_action.
  within_walk stays_or_finishes_side;
    solve [ apply replace_card_stays_or_finishes
          | apply _determine_winner_stays_or_finishes ].
Qed.

(** ** What a betting action does *)

Lemma next_entropy_runs {T} (st : St T) :
  next_entropy st = (mkSt (data st) (tail (rng st)) (now st), Returned (hd 0%nat (rng st))).
Proof. destruct st as [d [|k tape] t]; reflexivity. Qed.

Lemma bet_outside_betting (st : St Session) action amount :
  phase_of st ≠ Betting →
  process_bet_action action amount st
    = (st, Raised (ValueError "Cannot bet when not in betting phase")).
Proof. intros Hph. unfold process_bet_action. by run_method. Qed.

Lemma call_runs (st : St Session) (amount : option Z) :
  phase_of st = Betting →
  process_bet_action "call" amount st =
    if decide (chips_of st < table_bet_of st) then
      (st, Raised (ValueError "Insufficient chips to call"))
    else
      let g := Game.set_updated_at (now st)
                 (Game.set_phase Drawing
                    (Game.set_pot (pot_of st + table_bet_of st) (game (data st)))) in
      let p := Player.set_current_bet (table_bet_of st)
                 (Player.set_chips (chips_of st - table_bet_of st) (player (data st))) in
      (mkSt (mkSession g p (cards (data st)) (opponents (data st))) (rng st) (now st),
       Returned g).
Proof.
  intros Hph. unfold process_bet_action. run_method; reflexivity.
Qed.

Lemma raise_runs (st : St Session) (amount : option Z) :
  phase_of st = Betting →
  process_bet_action "raise" amount st =
    match amount with
    | None => (st, Raised (ValueError "Amount required for raise"))
    | Some a =>
        if decide (a = 0) then
          (st, Raised (ValueError "Amount required for raise"))
        else if decide (a < 0) then
          (st, Raised (ValueError "Raise amount must be positive"))
        else if decide (chips_of st < a) then
          (st, Raised (ValueError "Insufficient chips to raise"))
        else
          let g := Game.set_updated_at (now st)
                     (Game.set_current_bet (Z.max (table_bet_of st) a)
                        (Game.set_pot (pot_of st + a) (game (data st)))) in
          let p := Player.set_current_bet a
                     (Player.set_chips (chips_of st - a) (player (data st))) in
          (mkSt (mkSession g p (cards (data st)) (opponents (data st))) (rng st) (now st),
           Returned g)
    end.
Proof.
  intros Hph. unfold process_bet_action.
  destruct amount as [a|]; [| by run_method].
  unfold truthy. destruct (Z.eqb_spec a 0) as [->|Hne]; run_method; reflexivity.
Qed.

Lemma fold_runs (st : St Session) (amount : option Z) :
  phase_of st = Betting →
  process_bet_action "fold" amount st =
    let w := nth (hd 0%nat (rng st) mod 3)
                 ["Computer 1"; "Computer 2"; "Computer 3"] "Computer 1" in
    let g := Game.set_updated_at (now st)
               (Game.set_winning_hand (Some "Pair of Kings")
                  (Game.set_winner (Some w)
                     (Game.set_phase Finished (game (data st))))) in
    let p := Player.set_has_folded true (player (data st)) in
    (mkSt (mkSession g p (cards (data st)) (opponents (data st)))
          (tail (rng st)) (now st),
     Returned g).
Proof.
  intros Hph. unfold process_bet_action, choice, randbelow.
  run_method. rewrite next_entropy_runs. reflexivity.
Qed.

(** ** What a draw does *)

Lemma draw_outside_drawing (st : St Session) discard_indices :
  phase_of st ≠ Drawing →
  process_draw_action discard_indices st
    = (st, Raised (ValueError "Cannot draw when not in drawing phase")).
Proof. intros Hph. unfold process_draw_action. by run_method. Qed.

(** The validation loop: the first index out of range raises, before the
    loop has written anything; without such an index the loop returns. *)
Lemma validation_loop (n : nat) (discard_indices : list Z) (st : St Session) :
  for_each discard_indices (λ index,
      if decide (index < 0 ∨ index >= Z.of_nat n) then
        raise (ValueError ("Invalid card index: " +:+ pretty index))
      else mret tt) st
  = match list_find (out_of_range n) discard_indices with
    | Some (_, index) =>
        (st, Raised (ValueError ("Invalid card index: " +:+ pretty index)))
    | None => (st, Returned tt)
    end.
Proof.
  induction discard_indices as [|index rest IH]; [reflexivity |].
  cbn [for_each list_find]. unfold mbind at 1, M_bind at 1.
  unfold out_of_range at 1. case_decide; [reflexivity |].
  unfold mret at 1, M_ret at 1. rewrite IH.
  unfold fmap, option_fmap, option_map. by destruct (list_find _ rest) as [[? ?]|].
Qed.

Lemma draw_out_of_range (st : St Session) (discard_indices : list Z) :
  phase_of st = Drawing →
  Exists (out_of_range (length (cards (data st)))) discard_indices →
  ∃ index, index ∈ discard_indices
    ∧ out_of_range (length (cards (data st))) index
    ∧ process_draw_action discard_indices st
        = (st, Raised (ValueError ("Invalid card index: " +:+ pretty index))).
Proof.
  intros Hph Hbad. unfold process_draw_action.
  unfold mbind at 1, M_bind at 1, gets at 1. cbn.
  case_decide; [unfold_readers; congruence |].
  unfold mbind at 1, M_bind at 1, gets at 1. cbn.
  unfold mbind at 1, M_bind at 1. rewrite validation_loop.
  destruct (list_find _ discard_indices) as [[i index]|] eqn:Hfind.
  - apply list_find_Some in Hfind as (Hi & Hout & _).
    exists index. split; [by eapply list_elem_of_lookup_2 |]. by split.
  - apply list_find_None in Hfind. apply Exists_exists in Hbad as (x & Hx & Hout).
    rewrite Forall_forall in Hfind. by destruct (Hfind x Hx).
Qed.

(** ** The store *)

Lemma get_game_state_runs (pk : UUID) (st : St Store) :
  get_game_state pk st
    = match data st !! pk with
      | Some s => (st, Returned (game s))
      | None => (st, Raised (ValueError "Game not found"))
      end.
Proof.
  unfold get_game_state, mbind, M_bind, gets. cbn. by destruct (data st !! pk).
Qed.

(** A service call on the game [pk], after the lookup. *)
Lemma service_call_runs {A} (pk : UUID) (method : M Session A) (st : St Store) :
  (get_game_state pk ;; with_game pk method) st
    = match data st !! pk with
      | Some s =>
          let r := method (mkSt s (rng st) (now st)) in
          (mkSt (<[pk := data r.1]> (data st)) (rng r.1) (now r.1), r.2)
      | None => (st, Raised (ValueError "Game not found"))
      end.
Proof.
  unfold mbind, M_bind. rewrite get_game_state_runs. unfold with_game.
  destruct (data st !! pk) as [s|] eqn:Hs; [| reflexivity].
  cbn. rewrite Hs. by destruct (method _).
Qed.

Lemma untouched_refl {T} (s : T) : untouched s s.
Proof. reflexivity. Qed.

Lemma untouched_trans {T} (s1 s2 s3 : T) :
  untouched s1 s2 → untouched s2 s3 → untouched s1 s3.
Proof. unfold untouched. congruence. Qed.

Lemma _deal_initial_cards_untouched {T} : within (@untouched T) _deal_initial_cards.
Proof.
  unfold _deal_initial_cards.
  apply within_bind; [apply untouched_trans | |].
  - apply within_shuffle; [apply untouched_refl | apply untouched_trans].
  - intros deck. apply within_mapM; [apply untouched_refl | apply untouched_trans |].
    intros i. apply within_bind; [apply untouched_trans | |].
    + apply within_getitem; [apply untouched_refl | apply untouched_trans].
    + intros [suit rank]. apply within_ret, untouched_refl.
Qed.

Lemma bind_runs {T A B} (m : M T A) (k : A → M T B) (st : St T) :
  (m ≫= k) st
    = match m st with
      | (st1, Returned a) => k a st1
      | (st1, Raised e) => (st1, Raised e)
      end.
Proof. reflexivity. Qed.

Lemma ret_runs {T A} (a : A) (st : St T) : (mret a : M T A) st = (st, Returned a).
Proof. reflexivity. Qed.

Lemma randint_runs {T} (a b : Z) (st : St T) :
  randint a b st
    = (mkSt (data st) (tail (rng st)) (now st),
       Returned (a + Z.of_nat (hd 0%nat (rng st) mod Z.to_nat (b - a + 1)))).
Proof.
  unfold randint, randbelow, mbind, M_bind. by rewrite next_entropy_runs.
Qed.

(** The opponent rows of a new game: one per name, Active, with chips
    between 800 and 1200. *)
Lemma opponents_made (names : list string) (st : St Store) :
  ∃ st' opps,
    mapM (λ name, chips ← randint 800 1200;
                  mret (Opponent.mk name chips Active 5 0)) names st
      = (st', Returned opps)
    ∧ data st' = data st
    ∧ now st' = now st
    ∧ map Opponent.name opps = names
    ∧ Forall (λ o, Opponent.status o = Active
                   ∧ 800 ≤ Opponent.chips o ≤ 1200) opps.
Proof.
  revert st. induction names as [|name names IH]; intros st.
  { exists st, []. by repeat split. }
  cbn [mapM]. rewrite !bind_runs, randint_runs, ret_runs. cbn beta iota.
  rewrite bind_runs.
  destruct (IH (mkSt (data st) (tail (rng st)) (now st)))
    as (st' & opps & -> & Hdata & Hnow & Hnames & Hall).
  rewrite ret_runs.
  eexists st', (_ :: opps). split; [reflexivity |].
  repeat split; [done | done | by cbn; f_equal | ].
  constructor; [| done]. cbn. split; [done |].
  pose proof (Nat.mod_upper_bound (hd 0%nat (rng st)) (Z.to_nat (1200 - 800 + 1))).
  lia.
Qed.

Lemma getitem_runs {T A} (seq : list A) (i : nat) (x : A) (st : St T) :
  seq !! i = Some x → getitem seq (Z.of_nat i) st = (st, Returned x).
Proof.
  intros Hx. pose proof (lookup_lt_Some _ _ _ Hx) as Hlt.
  unfold getitem, locate, py_index. rewrite bind_runs.
  case_decide; [| lia]. rewrite ret_runs, Nat2Z.id, Hx. reflexivity.
Qed.

Lemma swap_length {A} (i j : nat) (x : list A) : length (swap i j x) = length x.
Proof.
  unfold swap. destruct (x !! i), (x !! j); try done.
  by rewrite !length_insert.
Qed.

(** A shuffle always returns, with a list of the same length. *)
Lemma shuffle_from_returns {T A} (i : nat) (x : list A) (st : St T) :
  ∃ st' y, shuffle_from i x st = (st', Returned y)
    ∧ length y = length x ∧ data st' = data st.
Proof.
  revert x st. induction i as [|i IH]; intros x st.
  { exists st, x. by repeat split. }
  cbn [shuffle_from]. unfold randbelow.
  rewrite !bind_runs, next_entropy_runs, ret_runs. cbn beta iota.
  destruct (IH (swap (S i) (hd 0%nat (rng st) mod S (S i)) x)
               (mkSt (data st) (tail (rng st)) (now st)))
    as (st' & y & -> & Hlen & Hdata).
  exists st', y. rewrite swap_length in Hlen. by repeat split.
Qed.

(** The deal always returns, with five cards. *)
Lemma _deal_initial_cards_returns {T} (st : St T) :
  ∃ st' hand, _deal_initial_cards st = (st', Returned hand)
    ∧ length hand = 5%nat ∧ data st' = data st.
Proof.
  unfold _deal_initial_cards, shuffle. rewrite bind_runs.
  destruct (shuffle_from_returns (length (deck_without []) - 1) (deck_without []) st)
    as (st' & deck & -> & Hlen & Hdata).
  change (length (deck_without [])) with 52%nat in Hlen.
  do 5 (destruct deck as [|[? ?] deck]; [discriminate Hlen |]).
  cbn [seq mapM].
  repeat first [ rewrite bind_runs
               | erewrite getitem_runs by reflexivity
               | rewrite ret_runs
               | progress cbn beta iota ].
  eexists st', _. by repeat split.
Qed.

Lemma create_new_game_outcome (st st' : St Store) (r : Result Game.t) :
  create_new_game st = (st', r) →
  (data st' = data st ∧ r = Raised IntegrityError
     ∧ is_Some (data st !! N.of_nat (hd 0%nat (rng st))))
  ∨ (∃ s, data st !! Game.id (game s) = None
       ∧ data st' = <[Game.id (game s) := s]> (data st)
       ∧ r = Returned (game s)
       ∧ Game.id (game s) = N.of_nat (hd 0%nat (rng st))
       ∧ freshly_created s).
Proof.
  unfold create_new_game, uuid4.
  rewrite !bind_runs, next_entropy_runs, ret_runs. cbn beta iota.
  rewrite bind_runs. unfold timezone_now at 1. cbn [now].
  rewrite bind_runs. unfold gets at 1. cbn [data].
  destruct (data st !! N.of_nat (hd 0%nat (rng st))) eqn:Hpk.
  { intros [= <- <-]. left. eauto. }
  rewrite bind_runs.
  destruct (opponents_made ["Computer 1"; "Computer 2"; "Computer 3"]
              (mkSt (data st) (tail (rng st)) (now st)))
    as (st1 & opps & -> & Hdata1 & _ & Hnames & Hall).
  rewrite bind_runs.
  destruct (_deal_initial_cards_returns st1) as (st2 & hand & -> & Hlen & Hdata2).
  rewrite bind_runs. unfold modify at 1. rewrite ret_runs. intros [= <- <-].
  right. eexists (mkSession _ _ hand opps). cbn.
  repeat split; try done. by rewrite Hdata2, Hdata1.
Qed.



(** Creation fails only on a primary key that is taken. *)
Lemma create_new_game_returns (st : St Store) :
  data st !! N.of_nat (hd 0%nat (rng st)) = None →
  ∃ st' g, create_new_game st = (st', Returned g).
Proof.
  intros Hfree. destruct (create_new_game st) as [st' r] eqn:Hrun.
  apply create_new_game_outcome in Hrun as [(_ & _ & [s Hs]) | (s & _ & _ & -> & _)].
  - congruence.
  - eauto.
Qed.

(** ** One call, seen from one primary key *)

Lemma step_service_call {A} (db : Store) (pk : UUID) (method : M Session A)
    (tape : list nat) (t : Z) :
  data ((get_game_state pk ;; with_game pk method) (mkSt db tape t)).1
    = match db !! pk with
      | Some s => <[pk := data (method (mkSt s tape t)).1]> db
      | None => db
      end.
Proof.
  rewrite service_call_runs. cbn [data rng now]. by destruct (db !! pk).
Qed.

Lemma step_keeps (db : Store) (c : Call) (pk : UUID) (s : Session) :
  db !! pk = Some s →
  ∃ s', step db c !! pk = Some s' ∧ session_move s s'.
Proof.
  intros Hs. destruct c as [[|pk0 action amount|pk0 idxs|pk0] tape t];
    unfold step, perform; cbn [operation entropy time].
  - destruct (create_new_game _) as [st' r] eqn:Hrun. cbn [fst].
    apply create_new_game_outcome in Hrun
      as [(-> & _) | (s0 & Hfree & -> & _)]; cbn [data] in *.
    + exists s. split; [done | by left].
    + exists s. split; [| by left].
      rewrite lookup_insert_ne; [done | congruence].
  - rewrite step_service_call. destruct (db !! pk0) as [s0|] eqn:Hs0.
    + destruct (decide (pk0 = pk)) as [->|Hne].
      * rewrite lookup_insert_eq. eexists; split; [reflexivity |].
        right; left. simplify_eq. eauto.
      * rewrite lookup_insert_ne by done. exists s. split; [done | by left].
    + exists s. split; [done | by left].
  - rewrite step_service_call. destruct (db !! pk0) as [s0|] eqn:Hs0.
    + destruct (decide (pk0 = pk)) as [->|Hne].
      * rewrite lookup_insert_eq. eexists; split; [reflexivity |].
        right; right. simplify_eq. eauto.
      * rewrite lookup_insert_ne by done. exists s. split; [done | by left].
    + exists s. split; [done | by left].
  - rewrite get_game_state_runs. cbn [data].
    exists s. split; [by destruct (db !! pk0) | by left].
Qed.



Lemma run_calls_app (db : Store) (calls later : list Call) :
  run_calls db (calls ++ later) = run_calls (run_calls db calls) later.
Proof. unfold run_calls. by rewrite foldl_app. Qed.

(** ** What one service call does to the phase *)

Lemma session_move_phase (s s' : Session) :
  session_move s s' → phase_le (Game.phase (game s)) (Game.phase (game s')).
Proof.
  unfold phase_le.
  intros [-> | [(action & amount & tape & t & ->) | (idxs & tape & t & ->)]].
  - done.
  - destruct (decide (Game.phase (game s) = Betting)) as [->|Hph].
    + cbn. lia.
    + by rewrite bet_outside_betting.
  - destruct (decide (Game.phase (game s) = Drawing)) as [Hph|Hph].
    + destruct (process_draw_action_stays_or_finishes idxs (mkSt s tape t))
        as [Hsame | Hfin]; cbn [data] in *.
      * by rewrite Hsame.
      * rewrite Hfin, Hph. cbn. lia.
    + by rewrite draw_outside_drawing.
Qed.

Lemma session_move_finished (s s' : Session) :
  Game.phase (game s) = Finished → session_move s s' → s' = s.
Proof.
  intros Hph [-> | [(action & amount & tape & t & ->) | (idxs & tape & t & ->)]].
  - done.
  - rewrite bet_outside_betting; [done | unfold phase_of; cbn; congruence].
  - rewrite draw_outside_drawing; [done | unfold phase_of; cbn; congruence].
Qed.

Lemma run_calls_keeps (later : list Call) (db : Store) (pk : UUID) (s : Session) :
  db !! pk = Some s →
  ∃ s', run_calls db later !! pk = Some s'
    ∧ phase_le (Game.phase (game s)) (Game.phase (game s'))
    ∧ opponents s' = opponents s
    ∧ (Game.phase (game s) = Finished → s' = s).
Proof.
  revert db s. induction later as [|c later IH]; intros db s Hs.
  { exists s. unfold phase_le. repeat split; [done | lia]. }
  destruct (step_keeps db c pk s Hs) as (s1 & Hs1 & Hmove).
  destruct (IH (step db c) s1 Hs1) as (s2 & Hs2 & Hle & Hopp & Hfin).
  exists s2. split; [exact Hs2 |].
  pose proof (session_move_phase s s1 Hmove) as Hle1.
  pose proof (session_move_same_opponents s s1 Hmove) as Hopp1.
  repeat split.
  - unfold phase_le in *. lia.
  - congruence.
  - intros Hph. pose proof (session_move_finished s s1 Hph Hmove) as ->. auto.
Qed.

(** ** The sessions the engine produces *)



(** ** The gate in front of a draw *)

Lemma size_list_to_set_cons (x : Z) (l : list Z) :
  size (list_to_set (x :: l) : gset Z)
    = if decide (x ∈ l) then size (list_to_set l : gset Z)
      else S (size (list_to_set l : gset Z)).
Proof.
  rewrite list_to_set_cons. destruct (decide (x ∈ l)) as [Hx|Hx].
  - f_equal. apply subseteq_union_1_L, singleton_subseteq_l.
    by apply elem_of_list_to_set.
  - rewrite size_union, size_singleton; [done |].
    apply disjoint_singleton_l. by rewrite elem_of_list_to_set.
Qed.

Lemma size_list_to_set_le (l : list Z) :
  (size (list_to_set l : gset Z) ≤ length l)%nat.
Proof.
  induction l as [|x l IH]; [done |].
  rewrite size_list_to_set_cons. case_decide; cbn [length]; lia.
Qed.

(** [len(value) == len(set(value))] holds exactly of lists without
    repetition. *)
Lemma len_set_NoDup (l : list Z) :
  length l = size (list_to_set l : gset Z) ↔ NoDup l.
Proof.
  split; [| intros Hnd; by rewrite size_list_to_set].
  induction l as [|x l IH]; [constructor |].
  rewrite size_list_to_set_cons. pose proof (size_list_to_set_le l).
  case_decide; cbn [length]; [lia |].
  intros Hlen. constructor; [done | apply IH; lia].
Qed.

Lemma DrawActionSerializer_rejects (value : list Z) :
  ¬ NoDup value ∨ Exists (out_of_range 5) value →
  DrawActionSerializer (Some value) = None.
Proof.
  intros Hbad. unfold DrawActionSerializer.
  case_decide as Hok; [| done]. destruct Hok as (Hrange & _ & Hlen).
  destruct Hbad as [Hdup | Hout].
  - by apply len_set_NoDup in Hlen.
  - apply Exists_exists in Hout as (i & Hi & Hout).
    rewrite Forall_forall in Hrange. specialize (Hrange i Hi).
    unfold out_of_range in Hout. lia.
Qed.

Lemma draw_gate_closed (pk : UUID) (s : Session) (value : list Z) (st : St Store) :
  data st !! pk = Some s →
  DrawActionSerializer (Some value) = None →
  draw (Some pk) (Some value) st
    = (st, Returned (mkResponse (ErrorBody "Invalid draw action") 400)).
Proof.
  intros Hs Hgate. unfold draw, attempt.
  rewrite bind_runs, get_game_state_runs, Hs, Hgate. reflexivity.
Qed.

(** ** The test suite's scenarios, run on the embedding *)

(** [test_create_new_game_success]: a new game is in Betting with an empty
    pot, 1000 chips and five cards. *)
Example created_game_is_dealt :
  run_calls ∅ [dealing_call] !! 7%N = Some dealt_session.
Proof. vm_compute. reflexivity. Qed.

(** [test_draw_cards_success]: after a call, discarding positions 0, 2, 4
    is answered with 200 and a hand of five cards, in phase Finished. *)
Example draw_three_cards_after_call :
  ∃ st' s, draw (Some 7%N) (Some [0; 2; 4])
             (mkSt (run_calls ∅ [dealing_call; mkCall (ApplyBet 7 "call" None) [] 51])
                   [3; 1; 4; 1; 5]%nat 52)
           = (st', Returned (mkResponse (GameState s) 200))
    ∧ length (cards s) = 5%nat
    ∧ Game.phase (game s) = Finished
    ∧ data st' !! 7%N = Some s.
Proof. eexists _, _. split; [vm_compute; reflexivity |]. by vm_compute. Qed.

(** [test_draw_wrong_phase]: a draw on a game still in Betting is answered
    with 400. *)
Example draw_in_betting_is_refused :
  draw (Some 7%N) (Some [0; 1]) (mkSt (run_calls ∅ [dealing_call]) [] 51)
    = (mkSt (run_calls ∅ [dealing_call]) [] 51,
       Returned (mkResponse (ErrorBody "Cannot draw in current game phase") 400)).
Proof. vm_compute. reflexivity. Qed.

(** [test_draw_game_not_found] *)
Example draw_on_unknown_game :
  draw (Some 8%N) (Some [0; 1]) (mkSt (run_calls ∅ [dealing_call]) [] 51)
    = (mkSt (run_calls ∅ [dealing_call]) [] 51,
       Returned (mkResponse (ErrorBody "Game not found") 404)).
Proof. vm_compute. reflexivity. Qed.

(** An action the service does not know falls through every branch: the
    game is saved and returned as it is. *)
Example unknown_action_only_saves :
  process_bet_action "check" None (sample_state Betting 1000)
    = (mkSt (set_game (Game.set_updated_at 60 (game (sample_session Betting 1000)))
                      (sample_session Betting 1000))
            [4; 8; 15; 16; 23; 42]%nat 60,
       Returned (Game.set_updated_at 60 (game (sample_session Betting 1000)))).
Proof. vm_compute. reflexivity. Qed.

(** More replacements than the deck has cards left: the loop raises
    [IndexError] after it has already written cards. *)
Example draw_past_the_deck :
  ∃ st', process_draw_action (repeat 0 48) (sample_state Drawing 990)
           = (st', Raised (IndexError "list index out of range"))
    ∧ phase_of st' = Drawing
    ∧ cards (data st') ≠ cards (data (sample_state Drawing 990)).
Proof. eexists. split; [vm_compute; reflexivity |]. by vm_compute. Qed.

(** * The claims *)

(** C3. In Betting, with chips to cover the table's current bet, a call
    returns; the pot has grown by exactly the current bet, the seat's chips
    have shrunk by exactly the current bet, the seat's own bet is that
    amount, and the phase is Drawing. *)
Theorem call_commits_current_bet (st : St Session) (amount : option Z) :
  phase_of st = Betting →
  table_bet_of st ≤ chips_of st →
  ∃ st', process_bet_action "call" amount st = (st', Returned (game (data st')))
    ∧ pot_of st' = pot_of st + table_bet_of st
    ∧ chips_of st' = chips_of st - table_bet_of st
    ∧ seat_bet_of st' = table_bet_of st
    ∧ phase_of st' = Drawing.
Proof.
  intros Hph Hchips. rewrite (call_runs st amount Hph).
  case_decide; [lia |].
  exists_final_state. by unfold_readers.
Qed.

Lemma call_commits_current_bet_witness :
  ∃ st', process_bet_action "call" None (sample_state Betting 1000)
         = (st', Returned (game (data st')))
    ∧ pot_of st' = pot_of (sample_state Betting 1000) + table_bet_of (sample_state Betting 1000)
    ∧ chips_of st' = chips_of (sample_state Betting 1000) - table_bet_of (sample_state Betting 1000)
    ∧ seat_bet_of st' = table_bet_of (sample_state Betting 1000)
    ∧ phase_of st' = Drawing.
Proof.
  apply (call_commits_current_bet (sample_state Betting 1000) None).
  - reflexivity.
  - vm_compute. discriminate.
Defined.

(** C6. In Betting, with fewer chips than the table's current bet, a call
    raises the insufficient-chips error and the state is the one before
    the call: pot, chips, phase, bets and everything else. *)
Theorem call_without_funds_fails (st : St Session) (amount : option Z) :
  phase_of st = Betting →
  chips_of st < table_bet_of st →
  process_bet_action "call" amount st
    = (st, Raised (ValueError "Insufficient chips to call")).
Proof.
  intros Hph Hchips. rewrite (call_runs st amount Hph).
  case_decide; [reflexivity | lia].
Qed.

Lemma call_without_funds_fails_witness :
  process_bet_action "call" None (sample_state Betting 9)
    = (sample_state Betting 9, Raised (ValueError "Insufficient chips to call")).
Proof.
  apply (call_without_funds_fails (sample_state Betting 9) None).
  - reflexivity.
  - vm_compute. reflexivity.
Defined.

(** C8. In Betting, a raise without an amount, or with an amount that is
    zero or negative, raises an error and the state is the one before the
    call. *)
Theorem raise_without_positive_amount_fails (st : St Session) (amount : option Z) :
  phase_of st = Betting →
  (amount = None ∨ ∃ a, amount = Some a ∧ a ≤ 0) →
  ∃ msg, process_bet_action "raise" amount st = (st, Raised (ValueError msg))
    ∧ (msg = "Amount required for raise" ∨ msg = "Raise amount must be positive").
Proof.
  intros Hph Hamount. rewrite (raise_runs st amount Hph).
  destruct Hamount as [-> | (a & -> & Ha)]; [eauto |].
  repeat case_decide; eauto; lia.
Qed.

Lemma raise_without_positive_amount_fails_witness :
  ∃ msg, process_bet_action "raise" (Some (-10)) (sample_state Betting 1000)
         = (sample_state Betting 1000, Raised (ValueError msg))
    ∧ (msg = "Amount required for raise" ∨ msg = "Raise amount must be positive").
Proof.
  apply (raise_without_positive_amount_fails (sample_state Betting 1000) (Some (-10))).
  - reflexivity.
  - right. exists (-10). split; [reflexivity | lia].
Defined.

(** C9. In Betting, a raise by a positive amount below the table's
    current bet, covered by the seat's chips, returns; the pot has grown by
    the amount and the table's current bet is what it was. *)
Theorem raise_below_current_bet_accepted (st : St Session) (a : Z) :
  phase_of st = Betting →
  0 < a < table_bet_of st →
  a ≤ chips_of st →
  ∃ st', process_bet_action "raise" (Some a) st = (st', Returned (game (data st')))
    ∧ pot_of st' = pot_of st + a
    ∧ table_bet_of st' = table_bet_of st
    ∧ chips_of st' = chips_of st - a
    ∧ phase_of st' = Betting.
Proof.
  intros Hph Ha Hchips. rewrite (raise_runs st (Some a) Hph).
  repeat (case_decide; [lia |]).
  exists_final_state. unfold_readers; cbn. repeat split; [lia | done].
Qed.

Lemma raise_below_current_bet_accepted_witness :
  ∃ st', process_bet_action "raise" (Some 5) (sample_state Betting 1000)
         = (st', Returned (game (data st')))
    ∧ pot_of st' = pot_of (sample_state Betting 1000) + 5
    ∧ table_bet_of st' = table_bet_of (sample_state Betting 1000)
    ∧ chips_of st' = chips_of (sample_state Betting 1000) - 5
    ∧ phase_of st' = Betting.
Proof.
  apply (raise_below_current_bet_accepted (sample_state Betting 1000) 5).
  - reflexivity.
  - vm_compute. split; reflexivity.
  - vm_compute. discriminate.
Defined.

(** C7. In Betting, a raise by a positive amount covered by the seat's
    chips returns: chips down by the amount, the seat's bet is the amount,
    the pot up by the amount, the table's current bet the larger of its old
    value and the amount, the phase still Betting.  In particular, on the
    session of a game just created (current bet 10), a raise of 50 leaves
    current bet and pot at 50 or more, in Betting. *)
Theorem raise_commits_amount :
  (∀ (st : St Session) (a : Z),
     phase_of st = Betting → 0 < a → a ≤ chips_of st →
     ∃ st', process_bet_action "raise" (Some a) st = (st', Returned (game (data st')))
       ∧ chips_of st' = chips_of st - a
       ∧ seat_bet_of st' = a
       ∧ pot_of st' = pot_of st + a
       ∧ table_bet_of st' = Z.max (table_bet_of st) a
       ∧ phase_of st' = Betting)
  ∧ (∀ (db db' : St Store) (g : Game.t) (tape : list nat) (t : Z),
       create_new_game db = (db', Returned g) →
       ∃ s st', data db' !! Game.id g = Some s
         ∧ game s = g
         ∧ table_bet_of (mkSt s tape t) = 10
         ∧ process_bet_action "raise" (Some 50) (mkSt s tape t)
             = (st', Returned (game (data st')))
         ∧ 50 ≤ table_bet_of st'
         ∧ 50 ≤ pot_of st'
         ∧ phase_of st' = Betting).
Proof.
  assert (∀ (st : St Session) (a : Z),
     phase_of st = Betting → 0 < a → a ≤ chips_of st →
     ∃ st', process_bet_action "raise" (Some a) st = (st', Returned (game (data st')))
       ∧ chips_of st' = chips_of st - a
       ∧ seat_bet_of st' = a
       ∧ pot_of st' = pot_of st + a
       ∧ table_bet_of st' = Z.max (table_bet_of st) a
       ∧ phase_of st' = Betting) as Hgeneral.
  { intros st a Hph Ha Hchips. rewrite (raise_runs st (Some a) Hph).
    repeat (case_decide; [lia |]).
    exists_final_state. by unfold_readers. }
  split; [exact Hgeneral |].
  intros db db' g tape t Hrun.
  apply create_new_game_outcome in Hrun
    as [(_ & [=] & _) | (s & _ & Hdb' & [= ->] & _ & Hfresh)].
  destruct Hfresh as (Hph & Hpot & Hbet & _ & Hplayer & _).
  destruct (Hgeneral (mkSt s tape t) 50) as (st' & Hrun & _ & _ & Hpot' & Hbet' & Hph').
  { exact Hph. }
  { lia. }
  { unfold chips_of. cbn. rewrite Hplayer. cbn. lia. }
  exists s, st'. rewrite Hdb', lookup_insert_eq.
  unfold pot_of, table_bet_of in *. cbn [data] in *.
  repeat split; try done; lia.
Qed.

Lemma raise_commits_amount_witness :
  (∃ st', process_bet_action "raise" (Some 50) (sample_state Betting 1000)
          = (st', Returned (game (data st')))
     ∧ chips_of st' = chips_of (sample_state Betting 1000) - 50
     ∧ seat_bet_of st' = 50
     ∧ pot_of st' = pot_of (sample_state Betting 1000) + 50
     ∧ table_bet_of st' = Z.max (table_bet_of (sample_state Betting 1000)) 50
     ∧ phase_of st' = Betting)
  ∧ (∃ s st', run_calls ∅ [dealing_call] !! Game.id (game dealt_session) = Some s
       ∧ game s = game dealt_session
       ∧ table_bet_of (mkSt s [] 60) = 10
       ∧ process_bet_action "raise" (Some 50) (mkSt s [] 60)
           = (st', Returned (game (data st')))
       ∧ 50 ≤ table_bet_of st'
       ∧ 50 ≤ pot_of st'
       ∧ phase_of st' = Betting).
Proof.
  destruct raise_commits_amount as [Hgeneral Hfresh]. split.
  - apply (Hgeneral (sample_state Betting 1000) 50).
    + reflexivity.
    + lia.
    + vm_compute. discriminate.
  - apply (Hfresh (mkSt ∅ [7; 100; 200; 300]%nat 50)
                  (create_new_game (mkSt ∅ [7; 100; 200; 300]%nat 50)).1
                  (game dealt_session) [] 60).
    vm_compute. reflexivity.
Defined.

(** C5. Once the phase is Finished, a bet with any action and a draw with
    any positions raise the wrong-phase error and leave the state as it
    is; whatever calls follow, the stored session is the same, and it can
    still be read. *)
Theorem finished_session_is_immutable (st : St Session) :
  phase_of st = Finished →
  (∀ action amount,
     process_bet_action action amount st
       = (st, Raised (ValueError "Cannot bet when not in betting phase")))
  ∧ (∀ discard_indices,
       process_draw_action discard_indices st
         = (st, Raised (ValueError "Cannot draw when not in drawing phase")))
  ∧ (∀ (db : Store) (pk : UUID) (calls : list Call) (tape : list nat) (t : Z),
       db !! pk = Some (data st) →
       run_calls db calls !! pk = Some (data st)
       ∧ get_game_state pk (mkSt (run_calls db calls) tape t)
           = (mkSt (run_calls db calls) tape t, Returned (game (data st)))).
Proof.
  intros Hph. split; [| split].
  - intros action amount. apply bet_outside_betting. congruence.
  - intros idxs. apply draw_outside_drawing. congruence.
  - intros db pk calls tape t Hs.
    destruct (run_calls_keeps calls db pk (data st) Hs) as (s' & Hs' & _ & _ & Hsame).
    rewrite (Hsame Hph) in Hs'. split; [exact Hs' |].
    rewrite get_game_state_runs. cbn [data]. by rewrite Hs'.
Qed.

Lemma finished_session_is_immutable_witness :
  (∀ action amount,
     process_bet_action action amount (sample_state Finished 990)
       = (sample_state Finished 990,
          Raised (ValueError "Cannot bet when not in betting phase")))
  ∧ (∀ discard_indices,
       process_draw_action discard_indices (sample_state Finished 990)
         = (sample_state Finished 990,
            Raised (ValueError "Cannot draw when not in drawing phase")))
  ∧ (∀ (db : Store) (pk : UUID) (calls : list Call) (tape : list nat) (t : Z),
       db !! pk = Some (data (sample_state Finished 990)) →
       run_calls db calls !! pk = Some (data (sample_state Finished 990))
       ∧ get_game_state pk (mkSt (run_calls db calls) tape t)
           = (mkSt (run_calls db calls) tape t,
              Returned (game (data (sample_state Finished 990))))).
Proof.
  apply (finished_session_is_immutable (sample_state Finished 990)).
  reflexivity.
Defined.

(** C10. No bet and no draw, returning or raising, changes an opponent
    row: the list of opponents, with every name, chip count, status, card
    count and current bet, is the same after the call as before it. *)
Theorem opponents_never_modified (st : St Session) :
  (∀ action amount,
     opponents (data (process_bet_action action amount st).1) = opponents (data st))
  ∧ (∀ discard_indices,
       opponents (data (process_draw_action discard_indices st).1)
         = opponents (data st)).
Proof.
  split.
  - intros action amount. apply process_bet_action_same_opponents.
  - intros idxs. apply process_draw_action_same_opponents.
Qed.

(** C2. The phase of a stored session never moves back in the order
    Betting, Drawing, (Showdown,) Finished: whatever calls (create, bet,
    draw, read) follow the moment a session is seen in some phase, the
    session is still stored and its phase is that one or a later one. *)
Theorem phase_never_moves_back (db : Store) (calls later : list Call)
    (pk : UUID) (s : Session) :
  run_calls db calls !! pk = Some s →
  ∃ s', run_calls db (calls ++ later) !! pk = Some s'
    ∧ phase_le (Game.phase (game s)) (Game.phase (game s')).
Proof.
  intros Hs. rewrite run_calls_app.
  destruct (run_calls_keeps later (run_calls db calls) pk s Hs)
    as (s' & Hs' & Hle & _).
  eauto.
Qed.

Lemma phase_never_moves_back_witness :
  ∃ s', run_calls ∅ ([dealing_call]
                     ++ [ mkCall (ApplyBet 7 "call" None) [] 51;
                          mkCall (GetState 7) [] 52;
                          mkCall (ApplyDraw 7 [0; 2; 4]) [3; 1; 4]%nat 53;
                          mkCall (ApplyBet 7 "raise" (Some 20)) [] 54 ]) !! 7%N
        = Some s'
    ∧ phase_le (Game.phase (game dealt_session)) (Game.phase (game s')).
Proof.
  apply (phase_never_moves_back ∅ [dealing_call]).
  vm_compute. reflexivity.
Defined.




(** C1, as stated, fails: in Drawing, with the five-card sample hand, the
    positions [1; 1] hold a repeated index, and the draw returns instead
    of raising; the phase has moved to Finished and the card at position 1
    is another one. *)
Lemma draw_accepts_repeated_position :
  phase_of (sample_state Drawing 990) = Drawing
  ∧ ¬ NoDup [1; 1]
  ∧ (∃ st' g, process_draw_action [1; 1] (sample_state Drawing 990)
                = (st', Returned g)
       ∧ phase_of st' = Finished
       ∧ cards (data st') !! 1%nat = Some (Card.mk hearts R4 false 1)
       ∧ cards (data (sample_state Drawing 990)) !! 1%nat
           = Some (Card.mk spades RK false 1))
  ∧ ¬ (∃ e, process_draw_action [1; 1] (sample_state Drawing 990)
              = (sample_state Drawing 990, Raised e)).
Proof.
  split; [reflexivity |]. split.
  { intros Hnd. apply NoDup_cons in Hnd as [Hnotin _].
    apply Hnotin, list_elem_of_In. cbn. auto. }
  split.
  - eexists _, _. split; [vm_compute; reflexivity |]. by vm_compute.
  - intros [e He]. vm_compute in He. discriminate He.
Qed.

(** C1, amended.  In Drawing, a draw whose positions hold an index that is
    negative or not below the size of the hand raises the invalid-index
    error, and the state is the one before the call.  A repeated index is
    not refused by the draw itself but by the serializer in front of it:
    a draw request whose positions hold a repeated index, or an index
    outside 0..4, is answered with status 400 and the store is the one
    before the request. *)
Theorem draw_refuses_malformed_positions :
  (∀ (st : St Session) (discard_indices : list Z),
     phase_of st = Drawing →
     Exists (out_of_range (length (cards (data st)))) discard_indices →
     ∃ index, index ∈ discard_indices
       ∧ out_of_range (length (cards (data st))) index
       ∧ process_draw_action discard_indices st
           = (st, Raised (ValueError ("Invalid card index: " +:+ pretty index))))
  ∧ (∀ (st : St Store) (pk : UUID) (s : Session) (discard_indices : list Z),
       data st !! pk = Some s →
       ¬ NoDup discard_indices ∨ Exists (out_of_range 5) discard_indices →
       ∃ error, draw (Some pk) (Some discard_indices) st
                  = (st, Returned (mkResponse (ErrorBody error) 400))).
Proof.
  split.
  - apply draw_out_of_range.
  - intros st pk s idxs Hs Hbad. eexists.
    eapply draw_gate_closed; [exact Hs |].
    by apply DrawActionSerializer_rejects.
Qed.

Lemma draw_refuses_malformed_positions_witness :
  (∃ index, index ∈ [0; 5; 10]
     ∧ out_of_range (length (cards (data (sample_state Drawing 990)))) index
     ∧ process_draw_action [0; 5; 10] (sample_state Drawing 990)
         = (sample_state Drawing 990,
            Raised (ValueError ("Invalid card index: " +:+ pretty index))))
  ∧ (∃ error,
       draw (Some 1%N) (Some [0; 1; 1; 2])
            (mkSt {[ 1%N := sample_session Drawing 990 ]} [] 61)
         = (mkSt {[ 1%N := sample_session Drawing 990 ]} [] 61,
            Returned (mkResponse (ErrorBody error) 400))).
Proof.
  destruct draw_refuses_malformed_positions as [Hengine Hgate]. split.
  - apply (Hengine (sample_state Drawing 990) [0; 5; 10]).
    + reflexivity.
    + apply Exists_cons_tl, Exists_cons_hd. right. vm_compute. discriminate.
  - apply (Hgate (mkSt {[ 1%N := sample_session Drawing 990 ]} [] 61) 1%N
                 (sample_session Drawing 990) [0; 1; 1; 2]).
    + vm_compute. reflexivity.
    + left. intros Hnd. apply NoDup_cons in Hnd as [_ Hnd].
      apply NoDup_cons in Hnd as [Hnotin _].
      apply Hnotin, list_elem_of_In. cbn. auto.
Defined.

(** * Further properties *)

(** ** Choosing at random *)

Lemma state_eta {T} (st : St T) : mkSt (data st) (rng st) (now st) = st.
Proof. by destruct st. Qed.

Lemma choice_runs {T A} (seq : list A) (st : St T) :
  seq ≠ [] →
  ∃ x, x ∈ seq
    ∧ choice seq st = (mkSt (data st) (tail (rng st)) (now st), Returned x).
Proof.
  intros Hne. destruct seq as [|x0 seq]; [done |].
  unfold choice, randbelow.
  rewrite !bind_runs, next_entropy_runs, ret_runs. cbn beta iota.
  rewrite ret_runs. eexists. split; [| reflexivity].
  apply list_elem_of_In, nth_In, Nat.mod_upper_bound. done.
Qed.

(** ** The outcome resolver *)

Lemma _determine_winner_runs (st : St Session) :
  ∃ (w : option string) (h : string) (tape : list nat),
    _determine_winner st
      = (mkSt (set_game (Game.set_winning_hand (Some h)
                           (Game.set_winner w (game (data st)))) (data st))
              tape (now st),
         Returned tt)
    ∧ h ∈ winning_hands
    ∧ (Player.has_folded (player (data st)) = false →
       ∃ name, w = Some name
         ∧ name ∈ "player" :: map Opponent.name (active_opponents (data st)))
    ∧ (Player.has_folded (player (data st)) = true →
       (active_opponents (data st) = [] ∧ w = Game.winner (game (data st)))
       ∨ (∃ o, o ∈ active_opponents (data st) ∧ w = Some (Opponent.name o))).
Proof.
  unfold _determine_winner.
  rewrite bind_runs. unfold gets at 1. cbn beta iota.
  rewrite bind_runs. unfold gets at 1. cbn beta iota.
  rewrite bind_runs.
  destruct (Player.has_folded (player (data st))) eqn:Hfolded; cbn [negb].
  - destruct (active_opponents (data st)) as [|o0 active] eqn:Hactive.
    + rewrite ret_runs, bind_runs.
      destruct (choice_runs winning_hands st) as (h & Hh & ->); [done |].
      unfold modify_game, modify. cbn [data rng now].
      exists (Game.winner (game (data st))), h, (tail (rng st)).
      split; [| split; [done | split; [done | by left]]].
      by destruct (data st) as [[] ? ? ?].
    + rewrite bind_runs.
      destruct (choice_runs (o0 :: active) st) as (o & Ho & ->); [done |].
      unfold modify_game at 1, modify at 1. cbn [data rng now]. rewrite bind_runs.
      match goal with
      | |- context [choice winning_hands ?st1] =>
          destruct (choice_runs winning_hands st1) as (h & Hh & ->); [done |]
      end.
      unfold modify_game, modify. cbn [data rng now].
      exists (Some (Opponent.name o)), h, (tail (tail (rng st))).
      split; [reflexivity |]. split; [done |]. split; [done |]. right. eauto.
  - rewrite bind_runs.
    match goal with
    | |- context [choice ?seq st] =>
        destruct (choice_runs seq st) as (name & Hname & ->); [done |]
    end.
    unfold modify_game at 1, modify at 1. cbn [data rng now]. rewrite bind_runs.
    match goal with
    | |- context [choice winning_hands ?st1] =>
        destruct (choice_runs winning_hands st1) as (h & Hh & ->); [done |]
    end.
    unfold modify_game, modify. cbn [data rng now].
    exists (Some name), h, (tail (tail (rng st))).
    split; [reflexivity |]. split; [done |]. split; [eauto | done].
Qed.

(** ** Shuffling and the deck *)

Lemma swap_Permutation {A} (i j : nat) (x : list A) : swap i j x ≡ₚ x.
Proof.
  unfold swap. destruct (x !! i) as [a|] eqn:Hi; [| done].
  destruct (x !! j) as [b|] eqn:Hj; [| done].
  by apply Permutation_insert_swap.
Qed.

(** A shuffle returns its input in another order, and touches nothing but
    the entropy tape. *)
Lemma shuffle_returns_permutation {T A} (x : list A) (st : St T) :
  ∃ st' y, shuffle x st = (st', Returned y)
    ∧ y ≡ₚ x ∧ data st' = data st ∧ now st' = now st.
Proof.
  unfold shuffle. generalize (length x - 1)%nat as i. intros i.
  revert x st. induction i as [|i IH]; intros x st.
  { exists st, x. by repeat split. }
  cbn [shuffle_from]. unfold randbelow.
  rewrite !bind_runs, next_entropy_runs, ret_runs. cbn beta iota.
  destruct (IH (swap (S i) (hd 0%nat (rng st) mod S (S i)) x)
               (mkSt (data st) (tail (rng st)) (now st)))
    as (st' & y & -> & Hperm & Hdata & Hnow).
  exists st', y. rewrite swap_Permutation in Hperm. by repeat split.
Qed.

Lemma comprehension_filter {A B} (P : A * B → Prop) `{!∀ c, Decision (P c)}
    (xs : list A) (ys : list B) :
  (x ← xs; y ← ys; if decide (P (x, y)) then [] else [(x, y)])
    = filter (λ c, ¬ P c) (x ← xs; y ← ys; [(x, y)]).
Proof.
  assert (∀ x, (y ← ys; if decide (P (x, y)) then [] else [(x, y)])
               = filter (λ c, ¬ P c) (y ← ys; [(x, y)])) as Hinner.
  { intros x. induction ys as [|y ys IHy]; [done |].
    rewrite !bind_cons, filter_app, IHy. f_equal.
    cbn. unfold filter, list_filter. by repeat case_decide. }
  induction xs as [|x xs IHx]; [done |].
  by rewrite !bind_cons, filter_app, IHx, Hinner.
Qed.

Lemma deck_without_filter (excluded : list (Suit * Rank)) :
  deck_without excluded = filter (λ c, c ∉ excluded) (deck_without []).
Proof.
  exact (comprehension_filter (λ c, c ∈ excluded) SUITS RANKS).
Qed.

Lemma full_deck_NoDup : NoDup (deck_without []).
Proof. apply (bool_decide_unpack _). by vm_compute. Qed.

Lemma deck_without_NoDup (excluded : list (Suit * Rank)) :
  NoDup (deck_without excluded).
Proof. rewrite deck_without_filter. apply NoDup_filter, full_deck_NoDup. Qed.

Lemma deck_without_excludes (excluded : list (Suit * Rank)) (c : Suit * Rank) :
  c ∈ deck_without excluded → c ∉ excluded.
Proof. rewrite deck_without_filter, list_elem_of_filter. tauto. Qed.

(** The deck left after excluding the cards in play has at least 52 minus
    their number of cards. *)
Lemma deck_without_length (excluded : list (Suit * Rank)) :
  (52 ≤ length (deck_without excluded) + length excluded)%nat.
Proof.
  rewrite deck_without_filter.
  pose proof (filter_app_complement (λ c, c ∈ excluded) (deck_without [])) as Hsplit.
  apply Permutation_length in Hsplit. rewrite length_app in Hsplit.
  change (length (deck_without [])) with 52%nat in Hsplit.
  assert (length (filter (λ c, c ∈ excluded) (deck_without [])) ≤ length excluded)%nat.
  { apply submseteq_length, NoDup_submseteq.
    - apply NoDup_filter, full_deck_NoDup.
    - intros c Hc. apply list_elem_of_filter in Hc. tauto. }
  lia.
Qed.

(** ** Replacing cards *)

Lemma getitem_nat {T A} (seq : list A) (i : nat) (st : St T) :
  getitem seq (Z.of_nat i) st
    = match seq !! i with
      | Some x => (st, Returned x)
      | None => (st, Raised (IndexError "list index out of range"))
      end.
Proof.
  destruct (seq !! i) as [x|] eqn:Hx; [by apply getitem_runs |].
  apply lookup_ge_None in Hx.
  unfold getitem, locate, py_index. rewrite bind_runs.
  repeat case_decide; try lia. reflexivity.
Qed.

Lemma locate_runs {T A} (seq : list A) (i : Z) (st : St T) :
  (∃ n, (n < length seq)%nat ∧ locate seq i st = (st, Returned n))
  ∨ locate seq i st = (st, Raised (IndexError "list index out of range")).
Proof.
  unfold locate, py_index. repeat case_decide.
  - left. exists (Z.to_nat i). split; [lia | done].
  - left. exists (Z.to_nat (Z.of_nat (length seq) + i)). split; [lia | done].
  - by right.
Qed.

Lemma NoDup_alter_fresh {A} (l : list A) (n : nat) (c : A) :
  NoDup l → c ∉ l → NoDup (alter (λ _, c) n l).
Proof.
  intros Hnd. revert n. induction Hnd as [|x l Hx Hnd IH]; intros n Hc; [constructor |].
  apply not_elem_of_cons in Hc as [Hcx Hcl].
  destruct n as [|n]; cbn.
  - by constructor.
  - constructor; [| by apply IH].
    intros Hin. apply list_elem_of_lookup in Hin as [j Hj].
    rewrite list_lookup_alter in Hj. case_decide; subst.
    + destruct (l !! j); cbn in Hj; congruence.
    + apply Hx. by eapply list_elem_of_lookup_2.
Qed.

Lemma elem_of_alter_const {A} (l : list A) (n : nat) (c x : A) :
  x ∈ alter (λ _, c) n l → x = c ∨ x ∈ l.
Proof.
  intros Hin. apply list_elem_of_lookup in Hin as [j Hj].
  rewrite list_lookup_alter in Hj. case_decide; subst.
  - destruct (l !! j); cbn in Hj; [left; congruence | done].
  - right. by eapply list_elem_of_lookup_2.
Qed.

Lemma faces_replace cs n suit rank :
  faces (alter (λ card, Card.set_rank rank (Card.set_suit suit card)) n cs)
    = alter (λ _, (suit, rank)) n (faces cs).
Proof.
  unfold faces. revert n. induction cs as [|c cs IH]; intros [|n]; cbn; try done.
  by rewrite IH.
Qed.

Lemma slots_replace cs n suit rank :
  slots (alter (λ card, Card.set_rank rank (Card.set_suit suit card)) n cs)
    = slots cs.
Proof.
  unfold slots. revert n. induction cs as [|c cs IH]; intros [|n]; cbn; try done.
  by rewrite IH.
Qed.

Lemma replace_card_runs (deck : list (Suit * Rank)) (i : nat) (index : Z)
    (st : St Session) :
  0 ≤ index < Z.of_nat (length (cards (data st))) →
  replace_card deck (i, index) st
    = match deck !! i with
      | Some (suit, rank) =>
          (mkSt (set_cards
                   (alter (λ card, Card.set_rank rank (Card.set_suit suit card))
                          (Z.to_nat index) (cards (data st)))
                   (data st))
                (rng st) (now st),
           Returned tt)
      | None => (st, Raised (IndexError "list index out of range"))
      end.
Proof.
  intros Hindex. unfold replace_card.
  rewrite bind_runs. unfold gets at 1. cbn beta iota.
  rewrite bind_runs. unfold locate, py_index. case_decide; [| lia].
  rewrite ret_runs, bind_runs, getitem_nat.
  destruct (deck !! i) as [[suit rank]|]; reflexivity.
Qed.

(** The replacement loop, on indices that passed the validation: it
    rewrites faces only, keeps the hand free of repeated cards, leaves the
    positions it was not given alone, and stops with [IndexError] only
    when the deck runs out. *)
Lemma replace_loop (deck old : list (Suit * Rank)) (entries : list Z) :
  NoDup deck →
  (∀ c, c ∈ deck → c ∉ old) →
  ∀ (i : nat) (st : St Session),
    in_range (length (cards (data st))) entries →
    NoDup (faces (cards (data st))) →
    (∀ c, c ∈ faces (cards (data st)) →
          c ∈ old ∨ ∃ j, (j < i)%nat ∧ deck !! j = Some c) →
    ∃ st' r,
      for_each (enumerate_from i entries) (replace_card deck) st = (st', r)
      ∧ only_faces_differ (data st) (data st')
      ∧ rng st' = rng st ∧ now st' = now st
      ∧ NoDup (faces (cards (data st')))
      ∧ (∀ p, Z.of_nat p ∉ entries →
              cards (data st') !! p = cards (data st) !! p)
      ∧ ((r = Returned tt
          ∧ ∀ p c, Z.of_nat p ∈ entries →
                   faces (cards (data st')) !! p = Some c → c ∈ deck)
         ∨ (r = Raised (IndexError "list index out of range")
            ∧ (length deck < i + length entries)%nat)).
Proof.
  intros Hdeck Hdisjoint. induction entries as [|index rest IH];
    intros i st Hrange Hnd Hfrom.
  { exists st, (Returned tt). cbn. repeat split; try done.
    left. split; [done |]. intros p c Hp. by apply elem_of_nil in Hp. }
  apply Forall_cons in Hrange as [Hindex Hrest].
  cbn [enumerate_from for_each]. rewrite bind_runs, replace_card_runs by done.
  destruct (deck !! i) as [[suit rank]|] eqn:Hi.
  2:{ exists st, (Raised (IndexError "list index out of range")).
      apply lookup_ge_None in Hi. cbn [length].
      repeat split; try done. right. split; [done | lia]. }
  assert ((suit, rank) ∉ faces (cards (data st))) as Hfresh.
  { intros Hin. destruct (Hfrom _ Hin) as [Hold | (j & Hj & Hdj)].
    - eapply Hdisjoint; [| exact Hold]. by eapply list_elem_of_lookup_2.
    - pose proof (NoDup_lookup _ _ _ _ Hdeck Hi Hdj). lia. }
  set (st1 := mkSt _ _ _).
  destruct (IH (S i) st1) as (st' & r & Hrun & Hsame & Hrng & Hnow & Hnd' & Hkeep & Hend).
  { unfold in_range, st1. cbn. by rewrite length_alter. }
  { unfold st1. cbn. rewrite faces_replace. by apply NoDup_alter_fresh. }
  { unfold st1. cbn. rewrite faces_replace. intros c Hc.
    apply elem_of_alter_const in Hc as [-> | Hc].
    - right. exists i. split; [lia | done].
    - destruct (Hfrom c Hc) as [? | (j & ? & ?)]; [by left |].
      right. exists j. split; [lia | done]. }
  exists st', r. split; [exact Hrun |].
  destruct Hsame as (Hg & Hp & Ho & Hs). unfold st1 in *. cbn in *.
  rewrite slots_replace in Hs.
  split; [by repeat split |]. split; [done |]. split; [done |]. split; [done |].
  split.
  - intros p Hp'. apply not_elem_of_cons in Hp' as [Hne Hp'].
    rewrite (Hkeep p Hp'). apply list_lookup_alter_ne. lia.
  - destruct Hend as [(-> & Hnew) | (-> & Hshort)]; [left | right; split; [done | lia]].
    split; [done |]. intros p c Hp' Hc.
    destruct (decide (Z.of_nat p ∈ rest)) as [Hin | Hout]; [by eapply Hnew |].
    apply elem_of_cons in Hp' as [Heq | ?]; [| done].
    unfold faces in Hc. rewrite list_lookup_fmap, (Hkeep p Hout) in Hc.
    rewrite <- Heq, Nat2Z.id, list_lookup_alter_eq in Hc.
    destruct (cards (data st) !! p); cbn in Hc; [| done].
    injection Hc as <-. by eapply list_elem_of_lookup_2.
Qed.

(** ** What a draw does, once the indices are accepted *)

(** The end of a draw: the phase becomes Finished, the resolver names a
    winner and a hand, the game is saved and returned. *)
Lemma draw_tail_runs (st : St Session) :
  ∃ (w : option string) (h : string) (tape : list nat),
    let g := Game.set_updated_at (now st)
               (Game.set_winning_hand (Some h)
                  (Game.set_winner w
                     (Game.set_phase Finished (game (data st))))) in
    (modify_game (Game.set_phase Finished) ;;
     _determine_winner ;; save_game ;; gets game) st
      = (mkSt (set_game g (data st)) tape (now st), Returned g)
    ∧ h ∈ winning_hands
    ∧ (Player.has_folded (player (data st)) = false →
       ∃ name, w = Some name
         ∧ name ∈ "player" :: map Opponent.name (active_opponents (data st)))
    ∧ (Player.has_folded (player (data st)) = true →
       (active_opponents (data st) = [] ∧ w = Game.winner (game (data st)))
       ∨ (∃ o, o ∈ active_opponents (data st) ∧ w = Some (Opponent.name o))).
Proof.
  rewrite bind_runs. unfold modify_game at 1, modify at 1. cbn beta iota.
  set (st1 := mkSt _ _ _).
  destruct (_determine_winner_runs st1) as (w & h & tape & Hrun & Hh & Hplays & Hfolded).
  exists w, h, tape. cbv zeta. rewrite bind_runs, Hrun.
  unfold save_game, timezone_now, modify_game, modify, gets.
  rewrite !bind_runs. cbn.
  split; [| by repeat split]. by destruct (data st) as [[] ? ? ?].
Qed.

Lemma validation_passes (n : nat) (discard_indices : list Z) :
  in_range n discard_indices →
  list_find (out_of_range n) discard_indices = None.
Proof.
  intros Hrange. apply list_find_None. eapply Forall_impl; [exact Hrange |].
  intros index Hindex. unfold out_of_range. cbn in Hindex. lia.
Qed.

Lemma draw_runs (st : St Session) (discard_indices : list Z) :
  phase_of st = Drawing →
  in_range (length (cards (data st))) discard_indices →
  NoDup (faces (cards (data st))) →
  ∃ st' r,
    process_draw_action discard_indices st = (st', r)
    ∧ player (data st') = player (data st)
    ∧ opponents (data st') = opponents (data st)
    ∧ slots (cards (data st')) = slots (cards (data st))
    ∧ NoDup (faces (cards (data st')))
    ∧ (∀ p, Z.of_nat p ∉ discard_indices →
            cards (data st') !! p = cards (data st) !! p)
    ∧ now st' = now st
    ∧ ((r = Raised (IndexError "list index out of range")
        ∧ game (data st') = game (data st)
        ∧ (52 < length discard_indices + length (cards (data st)))%nat)
       ∨ (∃ (w : option string) (h : string),
            r = Returned (game (data st'))
            ∧ game (data st')
                = Game.set_updated_at (now st)
                    (Game.set_winning_hand (Some h)
                       (Game.set_winner w
                          (Game.set_phase Finished (game (data st)))))
            ∧ h ∈ winning_hands
            ∧ (Player.has_folded (player (data st)) = false →
               ∃ name, w = Some name
                 ∧ name ∈ "player" :: map Opponent.name (active_opponents (data st)))
            ∧ (∀ p c, Z.of_nat p ∈ discard_indices →
                      faces (cards (data st')) !! p = Some c →
                      c ∉ faces (cards (data st))))).
Proof.
  intros Hph Hrange Hnd. unfold process_draw_action.
  rewrite bind_runs. unfold gets at 1. cbn beta iota.
  case_decide; [unfold_readers; congruence |].
  rewrite bind_runs. unfold gets at 1. cbn beta iota.
  rewrite bind_runs, validation_loop, (validation_passes _ _ Hrange).
  rewrite bind_runs.
  destruct discard_indices as [|index rest].
  - rewrite ret_runs.
    destruct (draw_tail_runs st) as (w & h & tape & Hrun & Hh & Hplays & _).
    cbv zeta in Hrun. rewrite Hrun. eexists _, _. split; [reflexivity |].
    cbn [data now game player opponents cards set_game fst].
    repeat split; try done.
    right. exists w, h. repeat split; try done.
    intros p c Hp. by apply elem_of_nil in Hp.
  - rewrite bind_runs.
    destruct (shuffle_returns_permutation
                (deck_without (map (λ c, (Card.suit c, Card.rank c)) (cards (data st)))) st)
      as (st1 & deck & -> & Hperm & Hdata1 & Hnow1).
    fold (faces (cards (data st))) in Hperm.
    destruct (replace_loop deck (faces (cards (data st))) (sorted (index :: rest)))
      with (i := 0%nat) (st := st1)
      as (st2 & r2 & Hloop & (Hg & Hp & Ho & Hs) & _ & Hnow2 & Hnd2 & Hkeep & Hend).
    { rewrite Hperm. apply deck_without_NoDup. }
    { intros c Hc. rewrite Hperm in Hc. by apply deck_without_excludes in Hc. }
    { rewrite Hdata1. unfold in_range, sorted. by rewrite merge_sort_Permutation. }
    { by rewrite Hdata1. }
    { rewrite Hdata1. auto. }
    unfold enumerate. rewrite Hloop. rewrite Hdata1 in *.
    assert (∀ p, Z.of_nat p ∈ sorted (index :: rest) ↔ Z.of_nat p ∈ index :: rest)
      as Hsorted.
    { intros p. unfold sorted. by rewrite merge_sort_Permutation. }
    destruct Hend as [(-> & Hnew) | (-> & Hshort)].
    + destruct (draw_tail_runs st2) as (w & h & tape & Hrun & Hh & Hplays & _).
      cbv zeta in Hrun. rewrite Hrun. eexists _, _. split; [reflexivity |].
      cbn [data now game player opponents cards set_game].
      rewrite Hg, Hp, Hnow2, Hnow1.
      repeat split; try done.
      * intros p Hp'. apply Hkeep. by rewrite Hsorted.
      * right. exists w, h. repeat split; try done.
        -- unfold active_opponents in *. by rewrite Hp, Ho in Hplays.
        -- intros p c Hp' Hc Hold. apply Hsorted in Hp'.
           specialize (Hnew p c Hp' Hc). rewrite Hperm in Hnew.
           by apply deck_without_excludes in Hnew.
    + eexists _, _. split; [reflexivity |].
      repeat split; try done.
      * intros p Hp'. apply Hkeep. by rewrite Hsorted.
      * by rewrite Hnow2.
      * left. repeat split; try done.
        pose proof (deck_without_length (faces (cards (data st)))) as Hlen.
        rewrite <- Hperm in Hlen. unfold sorted in Hshort.
        rewrite merge_sort_Permutation in Hshort.
        unfold faces in Hlen. rewrite length_map in Hlen. lia.
Qed.

(** ** The invariant of the engine's sessions *)

Lemma other_action_runs (st : St Session) (action : string) (amount : option Z) :
  phase_of st = Betting →
  action ≠ "fold" → action ≠ "call" → action ≠ "raise" →
  process_bet_action action amount st
    = (mkSt (set_game (Game.set_updated_at (now st) (game (data st))) (data st))
            (rng st) (now st),
       Returned (Game.set_updated_at (now st) (game (data st)))).
Proof.
  intros Hph Hfold Hcall Hraise. unfold process_bet_action. run_method. reflexivity.
Qed.

Lemma in_range_or_not (n : nat) (indices : list Z) :
  in_range n indices ∨ Exists (out_of_range n) indices.
Proof.
  destruct (decide (Exists (out_of_range n) indices)) as [Hbad | Hgood]; [by right |].
  left. apply not_Exists_Forall in Hgood; [| intros index; apply _].
  eapply Forall_impl; [exact Hgood |].
  intros index Hindex. unfold out_of_range in Hindex. cbn in Hindex. lia.
Qed.

Lemma well_formed_bet (st : St Session) (action : string) (amount : option Z) :
  well_formed (data st) →
  well_formed (data (process_bet_action action amount st).1).
Proof.
  intros Hwf.
  destruct (decide (phase_of st = Betting)) as [Hph | Hph];
    [| by rewrite bet_outside_betting].
  pose proof Hwf as (Hsum & Hchips & Hpot & Hbet & Hlen & Hnd & Hslots & Hnames
                     & Hopps & Hshow & Hfolded & Hwinner).
  unfold phase_of in Hph.
  assert (¬ is_Some (Game.winner (game (data st)))) as Hnone.
  { intros Hw. apply Hwinner in Hw. congruence. }
  assert (Player.has_folded (player (data st)) = true → False) as Hnotfolded.
  { intros Hf. apply Hfolded in Hf. congruence. }
  destruct (decide (action = "fold")) as [-> | Hfold].
  { rewrite fold_runs by done. unfold well_formed. cbn.
    repeat split; try done; try (intros _; eauto). }
  destruct (decide (action = "call")) as [-> | Hcall].
  { rewrite call_runs by done. unfold chips_of, table_bet_of, pot_of.
    case_decide; [exact Hwf |]. unfold well_formed. cbn.
    repeat split; try done; try lia; try congruence; intros [=]. }
  destruct (decide (action = "raise")) as [-> | Hraise].
  { rewrite raise_runs by done. unfold chips_of, table_bet_of, pot_of.
    destruct amount as [a|]; [| exact Hwf].
    repeat (case_decide; [exact Hwf |]). unfold well_formed. cbn.
    repeat split; try done; try lia; try congruence. }
  rewrite other_action_runs by done. unfold well_formed. cbn.
  repeat split; try done; apply Hwinner.
Qed.

Lemma well_formed_draw (st : St Session) (discard_indices : list Z) :
  well_formed (data st) →
  well_formed (data (process_draw_action discard_indices st).1).
Proof.
  intros Hwf.
  destruct (decide (phase_of st = Drawing)) as [Hph | Hph];
    [| by rewrite draw_outside_drawing].
  destruct (in_range_or_not (length (cards (data st))) discard_indices)
    as [Hrange | Hbad].
  2:{ destruct (draw_out_of_range st discard_indices Hph Hbad) as (i & _ & _ & ->).
      exact Hwf. }
  pose proof Hwf as (Hsum & Hchips & Hpot & Hbet & Hlen & Hnd & Hslots & Hnames
                     & Hopps & Hshow & Hfolded & Hwinner).
  unfold phase_of in Hph.
  destruct (draw_runs st discard_indices Hph Hrange Hnd)
    as (st' & r & -> & Hp & Ho & Hs & Hnd' & _ & _ & Hend).
  cbn [fst].
  assert (length (cards (data st')) = 5%nat) as Hlen'.
  { apply (f_equal length) in Hs. unfold slots in Hs.
    rewrite !length_map in Hs. congruence. }
  unfold well_formed, opponent_names. rewrite Hp, Ho, Hs.
  destruct Hend as [(_ & Hg & _) | (w & h & _ & Hg & _ & Hplays & _)]; rewrite Hg.
  - unfold opponent_names in Hnames.
    repeat match goal with |- _ ∧ _ => split end; done.
  - cbn. destruct (Hplays) as (name & -> & _).
    { destruct (Player.has_folded (player (data st))); [| done].
      rewrite Hfolded in Hph; done. }
    unfold opponent_names in Hnames.
    repeat match goal with |- _ ∧ _ => split end; try done.
Qed.

Lemma well_formed_move (s s' : Session) :
  well_formed s → session_move s s' → well_formed s'.
Proof.
  intros Hwf [-> | [(action & amount & tape & t & ->) | (idxs & tape & t & ->)]].
  - done.
  - by apply (well_formed_bet (mkSt s tape t)).
  - by apply (well_formed_draw (mkSt s tape t)).
Qed.

Lemma opponents_made_rows (names : list string) (st : St Store) :
  ∃ st' opps,
    mapM (λ name, chips ← randint 800 1200;
                  mret (Opponent.mk name chips Active 5 0)) names st
      = (st', Returned opps)
    ∧ data st' = data st
    ∧ map Opponent.name opps = names
    ∧ Forall (λ o, Opponent.status o = Active
                   ∧ 800 ≤ Opponent.chips o ≤ 1200
                   ∧ Opponent.card_count o = 5
                   ∧ Opponent.current_bet o = 0) opps.
Proof.
  revert st. induction names as [|name names IH]; intros st.
  { exists st, []. by repeat split. }
  cbn [mapM]. rewrite !bind_runs, randint_runs, ret_runs. cbn beta iota.
  rewrite bind_runs.
  destruct (IH (mkSt (data st) (tail (rng st)) (now st)))
    as (st' & opps & -> & Hdata & Hnames & Hall).
  rewrite ret_runs.
  eexists st', (_ :: opps). split; [reflexivity |].
  repeat split; [done | by cbn; f_equal |].
  constructor; [| done]. cbn.
  pose proof (Nat.mod_upper_bound (hd 0%nat (rng st)) (Z.to_nat (1200 - 800 + 1))).
  repeat split; try done; lia.
Qed.

(** The deal: five cards off the top of a shuffled deck, no two alike, in
    slots 0 to 4, none selected. *)
Lemma _deal_initial_cards_deals {T} (st : St T) :
  ∃ st' hand, _deal_initial_cards st = (st', Returned hand)
    ∧ data st' = data st
    ∧ NoDup (faces hand)
    ∧ slots hand = [(0, false); (1, false); (2, false); (3, false); (4, false)].
Proof.
  unfold _deal_initial_cards. rewrite bind_runs.
  destruct (shuffle_returns_permutation (deck_without []) st)
    as (st' & deck & -> & Hperm & Hdata & _).
  assert (NoDup deck) as Hnd by (rewrite Hperm; apply full_deck_NoDup).
  pose proof (Permutation_length Hperm) as Hlen.
  change (length (deck_without [])) with 52%nat in Hlen.
  do 5 (destruct deck as [|[? ?] deck]; [discriminate Hlen |]).
  cbn [seq mapM].
  repeat first [ rewrite bind_runs
               | erewrite getitem_runs by reflexivity
               | rewrite ret_runs
               | progress cbn beta iota ].
  eexists st', _. split; [reflexivity |]. split; [done |]. split; [| done].
  exact (sublist_NoDup _ _ Hnd (sublist_take _ 5)).
Qed.

Lemma create_new_game_lays (st st' : St Store) (g : Game.t) :
  create_new_game st = (st', Returned g) →
  ∃ s, data st !! Game.id g = None
    ∧ data st' = <[Game.id g := s]> (data st)
    ∧ game s = g
    ∧ g = Game.mk (N.of_nat (hd 0%nat (rng st))) Betting 0 10 None None
                  true true true (now st) (now st)
    ∧ well_formed s.
Proof.
  unfold create_new_game, uuid4.
  rewrite !bind_runs, next_entropy_runs, ret_runs. cbn beta iota.
  rewrite bind_runs. unfold timezone_now at 1. cbn [now].
  rewrite bind_runs. unfold gets at 1. cbn [data].
  destruct (data st !! N.of_nat (hd 0%nat (rng st))) eqn:Hpk; [intros [=] |].
  rewrite bind_runs.
  destruct (opponents_made_rows ["Computer 1"; "Computer 2"; "Computer 3"]
              (mkSt (data st) (tail (rng st)) (now st)))
    as (st1 & opps & -> & Hdata1 & Hnames & Hall).
  rewrite bind_runs.
  destruct (_deal_initial_cards_deals st1) as (st2 & hand & -> & Hdata2 & Hnd & Hslots).
  rewrite bind_runs. unfold modify at 1. rewrite ret_runs. intros [= <- <-].
  eexists (mkSession _ _ hand opps). cbn.
  split; [done |]. split; [by rewrite Hdata2, Hdata1 |]. split; [done |].
  split; [done |].
  unfold well_formed, opponent_names. cbn.
  assert (length hand = 5%nat) as Hlen.
  { apply (f_equal length) in Hslots. unfold slots in Hslots.
    by rewrite length_map in Hslots. }
  repeat match goal with |- _ ∧ _ => split end; try done.
Qed.

Lemma step_origin_well_formed (db : Store) (c : Call) (pk : UUID) (s' : Session) :
  step db c !! pk = Some s' →
  (∃ s, db !! pk = Some s ∧ session_move s s') ∨ well_formed s'.
Proof.
  intros Hs'. destruct (db !! pk) as [s|] eqn:Hs.
  { left. exists s. split; [done |].
    destruct (step_keeps db c pk s Hs) as (s1 & Hs1 & Hmove). congruence. }
  right. destruct c as [[|pk0 action amount|pk0 idxs|pk0] tape t];
    unfold step, perform in Hs'; cbn [operation entropy time] in Hs'.
  - destruct (create_new_game _) as [st' [g|e]] eqn:Hrun; cbn [fst] in Hs'.
    + apply create_new_game_lays in Hrun as (s0 & _ & Hd & _ & _ & Hwf).
      rewrite Hd in Hs'. cbn [data] in Hs'.
      destruct (decide (Game.id g = pk)) as [<-|Hne].
      * rewrite lookup_insert_eq in Hs'. congruence.
      * rewrite lookup_insert_ne in Hs' by done. congruence.
    + apply create_new_game_outcome in Hrun as [(Hd & _) | (? & _ & _ & [=] & _)].
      rewrite Hd in Hs'. cbn [data] in Hs'. congruence.
  - rewrite step_service_call in Hs'. destruct (db !! pk0) eqn:Hs0; [| congruence].
    destruct (decide (pk0 = pk)) as [->|Hne]; [congruence |].
    rewrite lookup_insert_ne in Hs' by done. congruence.
  - rewrite step_service_call in Hs'. destruct (db !! pk0) eqn:Hs0; [| congruence].
    destruct (decide (pk0 = pk)) as [->|Hne]; [congruence |].
    rewrite lookup_insert_ne in Hs' by done. congruence.
  - rewrite get_game_state_runs in Hs'. cbn [data] in Hs'.
    destruct (db !! pk0); cbn in Hs'; congruence.
Qed.

Lemma step_well_formed (db : Store) (c : Call) :
  map_Forall (λ _, well_formed) db → map_Forall (λ _, well_formed) (step db c).
Proof.
  intros Hdb pk s' Hs'.
  apply step_origin_well_formed in Hs' as [(s & Hs & Hmove) | Hwf]; [| done].
  eapply well_formed_move; [| exact Hmove]. by apply (Hdb pk).
Qed.

Lemma run_calls_well_formed (calls : list Call) (db : Store) :
  map_Forall (λ _, well_formed) db →
  map_Forall (λ _, well_formed) (run_calls db calls).
Proof.
  revert db. induction calls as [|c calls IH]; intros db Hdb; [done |].
  apply (IH (step db c)), step_well_formed, Hdb.
Qed.

(** X1. Every session the engine produces is well formed: the seat's
    chips and the pot add up to the 1000 chips dealt, neither is negative,
    the table's bet is at least the ante of 10; the hand has five cards,
    no two alike, in slots 0 to 4, none selected; the three opponents are
    named, Active, with 800 to 1200 chips, five cards and no bet; the phase
    is never Showdown; a folded seat means a Finished game; and a game is
    Finished exactly when it has a winner. *)
Theorem engine_sessions_are_well_formed (s : Session) :
  engine_session s → well_formed s.
Proof.
  intros (calls & pk & Hs).
  apply (run_calls_well_formed calls ∅ (map_Forall_empty _) pk s Hs).
Qed.

Lemma engine_sessions_are_well_formed_witness :
  well_formed
    (data (process_draw_action [0; 2; 4]
             (mkSt (data (process_bet_action "call" None
                            (mkSt dealt_session [] 51)).1)
                   [3; 1; 4; 1; 5]%nat 52)).1).
Proof.
  apply engine_sessions_are_well_formed.
  exists [ dealing_call;
           mkCall (ApplyBet 7 "call" None) [] 51;
           mkCall (ApplyDraw 7 [0; 2; 4]) [3; 1; 4; 1; 5]%nat 52 ], 7%N.
  vm_compute. reflexivity.
Defined.

(** X2. [create_new_game] on a primary key that is free returns the new
    game: in Betting, with an empty pot, a current bet of 10, stamped with
    the clock; its session is stored under the game's key and is well
    formed, with 1000 chips; every other key of the store is as before;
    and [get_game_state] on the new key gives the game back. *)
Theorem create_new_game_on_free_key (st : St Store) :
  data st !! N.of_nat (hd 0%nat (rng st)) = None →
  ∃ st' s,
    create_new_game st = (st', Returned (game s))
    ∧ game s = Game.mk (N.of_nat (hd 0%nat (rng st))) Betting 0 10 None None
                       true true true (now st) (now st)
    ∧ Player.chips (player s) = 1000
    ∧ well_formed s
    ∧ data st' !! Game.id (game s) = Some s
    ∧ (∀ pk, pk ≠ Game.id (game s) → data st' !! pk = data st !! pk)
    ∧ get_game_state (Game.id (game s)) st' = (st', Returned (game s)).
Proof.
  intros Hfree. destruct (create_new_game_returns st Hfree) as (st' & g & Hrun).
  destruct (create_new_game_lays st st' g Hrun) as (s & _ & Hd & <- & Hg & Hwf).
  exists st', s. split; [exact Hrun |]. split; [exact Hg |].
  assert (data st' !! Game.id (game s) = Some s) as Hs
    by (rewrite Hd; apply lookup_insert_eq).
  split.
  { destruct Hwf as (Hsum & _). rewrite Hg in Hsum. cbn in Hsum. lia. }
  split; [exact Hwf |]. split; [exact Hs |]. split.
  - intros pk Hpk. rewrite Hd. by apply lookup_insert_ne.
  - by rewrite get_game_state_runs, Hs.
Qed.

Lemma create_new_game_on_free_key_witness :
  ∃ st' s,
    create_new_game (mkSt ∅ [7; 100; 200; 300]%nat 50) = (st', Returned (game s))
    ∧ game s = Game.mk 7 Betting 0 10 None None true true true 50 50
    ∧ Player.chips (player s) = 1000
    ∧ well_formed s
    ∧ data st' !! Game.id (game s) = Some s
    ∧ (∀ pk, pk ≠ Game.id (game s) → data st' !! pk = (∅ : Store) !! pk)
    ∧ get_game_state (Game.id (game s)) st' = (st', Returned (game s)).
Proof.
  apply (create_new_game_on_free_key (mkSt ∅ [7; 100; 200; 300]%nat 50)).
  reflexivity.
Defined.

(** X3. The outcome resolver writes the winner and the hand label of the
    game row and nothing else.  The label is one of the eleven hand names.
    With a seat that has not folded the winner is ["player"] or the name
    of an Active opponent; with a folded seat it is the name of an Active
    opponent, or, when no opponent is Active, the winner there was. *)
Theorem resolver_names_a_candidate (st : St Session) :
  ∃ (w : option string) (h : string) (tape : list nat),
    _determine_winner st
      = (mkSt (set_game (Game.set_winning_hand (Some h)
                           (Game.set_winner w (game (data st)))) (data st))
              tape (now st),
         Returned tt)
    ∧ h ∈ winning_hands
    ∧ (Player.has_folded (player (data st)) = false →
       ∃ name, w = Some name
         ∧ name ∈ "player" :: map Opponent.name (active_opponents (data st)))
    ∧ (Player.has_folded (player (data st)) = true →
       (active_opponents (data st) = [] ∧ w = Game.winner (game (data st)))
       ∨ (∃ o, o ∈ opponents (data st) ∧ Opponent.status o = Active
               ∧ w = Some (Opponent.name o))).
Proof.
  destruct (_determine_winner_runs st) as (w & h & tape & Hrun & Hh & Hplays & Hfolded).
  exists w, h, tape. repeat split; try done.
  intros Hf. destruct (Hfolded Hf) as [? | (o & Ho & ->)]; [by left |].
  right. exists o. unfold active_opponents in Ho.
  apply list_elem_of_filter in Ho as [? ?]. by repeat split.
Qed.

(** X4. The deck a draw deals from: the 52 cards without those in
    [excluded].  It holds no card twice and none of the excluded cards,
    every other card is in it, and it has at least 52 minus the number of
    excluded cards. *)
Theorem replacement_deck_is_the_rest (excluded : list (Suit * Rank)) :
  NoDup (deck_without excluded)
  ∧ (∀ c, c ∈ deck_without excluded ↔ c ∉ excluded)
  ∧ (52 ≤ length (deck_without excluded) + length excluded)%nat.
Proof.
  split; [apply deck_without_NoDup |]. split; [| apply deck_without_length].
  intros c. rewrite deck_without_filter, list_elem_of_filter.
  split; [tauto |]. intros Hc. split; [done |].
  destruct c as [[] []]; apply list_elem_of_In; vm_compute; tauto.
Qed.

(** X5. Standing pat: in Drawing, a draw with no positions returns; the
    hand, the player row and the opponent rows are the ones before, the
    pot and the current bet too; the phase is Finished, the hand label is
    one of the eleven names, and with a seat that has not folded the
    winner is ["player"] or the name of an Active opponent. *)
Theorem draw_standing_pat (st : St Session) :
  phase_of st = Drawing →
  ∃ st' h,
    process_draw_action [] st = (st', Returned (game (data st')))
    ∧ cards (data st') = cards (data st)
    ∧ player (data st') = player (data st)
    ∧ opponents (data st') = opponents (data st)
    ∧ pot_of st' = pot_of st
    ∧ table_bet_of st' = table_bet_of st
    ∧ phase_of st' = Finished
    ∧ Game.winning_hand (game (data st')) = Some h
    ∧ h ∈ winning_hands
    ∧ (folded_of st = false →
       ∃ name, winner_of st' = Some name
         ∧ name ∈ "player" :: map Opponent.name (active_opponents (data st))).
Proof.
  intros Hph. unfold process_draw_action.
  rewrite bind_runs. unfold gets at 1. cbn beta iota.
  case_decide; [unfold_readers; congruence |].
  rewrite bind_runs. unfold gets at 1. cbn beta iota.
  rewrite bind_runs. cbn [for_each]. rewrite ret_runs, bind_runs, ret_runs.
  destruct (draw_tail_runs st) as (w & h & tape & Hrun & Hh & Hplays & _).
  cbv zeta in Hrun. rewrite Hrun.
  match goal with
  | |- ∃ st' h', (?final, _) = _ ∧ _ => exists final, h; split; [reflexivity |]
  end.
  unfold_readers. cbn. by repeat split.
Qed.

Lemma draw_standing_pat_witness :
  ∃ st' h,
    process_draw_action [] (sample_state Drawing 990)
      = (st', Returned (game (data st')))
    ∧ cards (data st') = cards (data (sample_state Drawing 990))
    ∧ player (data st') = player (data (sample_state Drawing 990))
    ∧ opponents (data st') = opponents (data (sample_state Drawing 990))
    ∧ pot_of st' = pot_of (sample_state Drawing 990)
    ∧ table_bet_of st' = table_bet_of (sample_state Drawing 990)
    ∧ phase_of st' = Finished
    ∧ Game.winning_hand (game (data st')) = Some h
    ∧ h ∈ winning_hands
    ∧ (folded_of (sample_state Drawing 990) = false →
       ∃ name, winner_of st' = Some name
         ∧ name ∈ "player"
             :: map Opponent.name (active_opponents (data (sample_state Drawing 990)))).
Proof.
  apply (draw_standing_pat (sample_state Drawing 990)). reflexivity.
Defined.

(** X6. In Drawing, on a hand without repeated cards, a draw whose
    positions are all positions of the hand, and no more than the deck can
    serve, returns in phase Finished.  Every card keeps its slot and mark;
    a position that was not given holds the card it held; a position that
    was given holds a card that was not in the hand before; and the new
    hand again has no repeated card.  Positions may repeat. *)
Theorem draw_replaces_the_discarded (st : St Session) (discard_indices : list Z) :
  phase_of st = Drawing →
  in_range (length (cards (data st))) discard_indices →
  NoDup (faces (cards (data st))) →
  (length discard_indices + length (cards (data st)) ≤ 52)%nat →
  ∃ st',
    process_draw_action discard_indices st = (st', Returned (game (data st')))
    ∧ phase_of st' = Finished
    ∧ slots (cards (data st')) = slots (cards (data st))
    ∧ length (cards (data st')) = length (cards (data st))
    ∧ NoDup (faces (cards (data st')))
    ∧ (∀ p, Z.of_nat p ∉ discard_indices →
            cards (data st') !! p = cards (data st) !! p)
    ∧ (∀ p c, Z.of_nat p ∈ discard_indices →
              faces (cards (data st')) !! p = Some c →
              c ∉ faces (cards (data st))).
Proof.
  intros Hph Hrange Hnd Hfits.
  destruct (draw_runs st discard_indices Hph Hrange Hnd)
    as (st' & r & Hrun & _ & _ & Hs & Hnd' & Hkeep & _ & Hend).
  destruct Hend as [(_ & _ & Hshort) | (w & h & -> & Hg & _ & _ & Hnew)]; [lia |].
  exists st'. split; [exact Hrun |].
  unfold phase_of. rewrite Hg. cbn.
  repeat split; try done.
  apply (f_equal length) in Hs. unfold slots in Hs. by rewrite !length_map in Hs.
Qed.

Lemma draw_replaces_the_discarded_witness :
  ∃ st',
    process_draw_action [4; 0; 4] (sample_state Drawing 990)
      = (st', Returned (game (data st')))
    ∧ phase_of st' = Finished
    ∧ slots (cards (data st')) = slots (cards (data (sample_state Drawing 990)))
    ∧ length (cards (data st')) = length (cards (data (sample_state Drawing 990)))
    ∧ NoDup (faces (cards (data st')))
    ∧ (∀ p, Z.of_nat p ∉ [4; 0; 4] →
            cards (data st') !! p = cards (data (sample_state Drawing 990)) !! p)
    ∧ (∀ p c, Z.of_nat p ∈ [4; 0; 4] →
              faces (cards (data st')) !! p = Some c →
              c ∉ faces (cards (data (sample_state Drawing 990)))).
Proof.
  apply (draw_replaces_the_discarded (sample_state Drawing 990) [4; 0; 4]).
  - reflexivity.
  - unfold in_range. repeat constructor; vm_compute; congruence.
  - apply (bool_decide_unpack _). by vm_compute.
  - vm_compute. lia.
Defined.

(** ** What every bet and every draw keeps *)

(** Splits a run of [process_bet_action] by phase and action, and
    rewrites it with the lemma of its case. *)
Ltac bet_by_cases st action amount :=
  destruct (decide (phase_of st = Betting)) as [?Hph | ?Hph];
    [| rewrite bet_outside_betting by done ];
  [ destruct (decide (action = "fold")) as [-> | ?Hfold];
      [ rewrite fold_runs by done
      | destruct (decide (action = "call")) as [-> | ?Hcall];
          [ rewrite call_runs by done; case_decide
          | destruct (decide (action = "raise")) as [-> | ?Hraise];
              [ rewrite raise_runs by done;
                destruct amount as [?a|]; [repeat case_decide |]
              | rewrite other_action_runs by done ] ] ]
  | ].

(** A betting action that raises has written nothing, and its error is a
    [ValueError]. *)
Lemma bet_raised (st st' : St Session) (action : string) (amount : option Z)
    (e : Exception) :
  process_bet_action action amount st = (st', Raised e) →
  st' = st ∧ ∃ msg, e = ValueError msg.
Proof.
  bet_by_cases st action amount; cbv zeta; intros [= <- <-]; eauto.
Qed.

(** X7. Whatever the session, the action and the amount, and whether the
    bet returns or raises: the chips the seat gives up are the chips the
    pot gains, the table's current bet does not go down, a folded seat
    stays folded, and no card and no opponent is touched. *)
Theorem bet_moves_chips_into_the_pot (st : St Session) (action : string)
    (amount : option Z) :
  chips_of (process_bet_action action amount st).1
    + pot_of (process_bet_action action amount st).1
    = chips_of st + pot_of st
  ∧ table_bet_of st ≤ table_bet_of (process_bet_action action amount st).1
  ∧ (folded_of st = true →
     folded_of (process_bet_action action amount st).1 = true)
  ∧ cards (data (process_bet_action action amount st).1) = cards (data st)
  ∧ opponents (data (process_bet_action action amount st).1)
      = opponents (data st).
Proof.
  bet_by_cases st action amount; unfold_readers; cbn;
    repeat split; try done; lia.
Qed.

Ltac stakes_and_slots_side :=
  unfold stakes_and_slots_kept; intros; cbn; rewrite ?slots_replace;
  intuition congruence.

Lemma _determine_winner_keeps_stakes : within stakes_and_slots_kept _determine_winner.
Proof. unfold _determine_winner. within_walk stakes_and_slots_side. Qed.

Lemma replace_card_keeps_stakes deck entry :
  within stakes_and_slots_kept (replace_card deck entry).
Proof. unfold replace_card. within_walk stakes_and_slots_side. Qed.

(** X8. Whatever the session and the positions, and whether the draw
    returns or raises, even halfway through its loop: the player row, the
    opponent rows, the pot, the current bet, the key and the creation time
    of the game are the ones before, every card is in its slot with its
    mark, and the hand has as many cards as before. *)
Theorem draw_keeps_stakes_and_slots (st : St Session) (discard_indices : list Z) :
  stakes_and_slots_kept (data st) (data (process_draw_action discard_indices st).1)
  ∧ length (cards (data (process_draw_action discard_indices st).1))
      = length (cards (data st)).
Proof.
  assert (within stakes_and_slots_kept (process_draw_action discard_indices)) as Hkept.
  { unfold process_draw_action.
    within_walk stakes_and_slots_side;
      solve [ apply replace_card_keeps_stakes
            | apply _determine_winner_keeps_stakes ]. }
  split; [apply Hkept |].
  destruct (Hkept st) as (_ & _ & _ & _ & _ & _ & Hslots).
  apply (f_equal length) in Hslots. unfold slots in Hslots.
  by rewrite !length_map in Hslots.
Qed.

(** ** The endpoints *)

Lemma BetActionSerializer_accepts (request_data : BetRequest) (action : string)
    (amount : option Z) :
  BetActionSerializer request_data = Some (action, amount) →
  (action = "call" ∨ action = "raise" ∨ action = "fold")
  ∧ (∀ a, amount = Some a → 1 ≤ a)
  ∧ (action = "raise" → is_Some amount).
Proof.
  unfold BetActionSerializer.
  destruct (req_action request_data) as [action0|]; [| done].
  case_decide as Hchoice; [| done].
  assert (action0 = "call" ∨ action0 = "raise" ∨ action0 = "fold") as Hone.
  { apply list_elem_of_In in Hchoice. cbn in Hchoice. intuition. }
  destruct (req_amount request_data) as [a0|].
  - case_decide; [| done]. intros [= <- <-].
    repeat split; [done | by intros ? [= <-] | eauto].
  - case_decide; [done |]. intros [= <- <-]. by repeat split.
Qed.

(** Behind the serializer the only errors a bet can raise are the two
    about chips. *)
Lemma bet_raised_behind_gate (st st' : St Session) (action : string)
    (amount : option Z) (e : Exception) :
  phase_of st = Betting →
  (∀ a, amount = Some a → 1 ≤ a) →
  (action = "raise" → is_Some amount) →
  process_bet_action action amount st = (st', Raised e) →
  st' = st
  ∧ (e = ValueError "Insufficient chips to call"
     ∨ e = ValueError "Insufficient chips to raise").
Proof.
  intros Hph Hmin Hsome.
  bet_by_cases st action amount; cbv zeta; try (by intros [=]);
    try (intros [= <- <-]; by eauto).
  - subst. specialize (Hmin 0 eq_refl). lia.
  - specialize (Hmin _ eq_refl). lia.
  - by destruct (Hsome eq_refl).
Qed.

Lemma with_game_reads (pk : UUID) (s : Session) (st : St Store) :
  data st !! pk = Some s →
  with_game pk (gets (λ s : Session, s)) st = (st, Returned s).
Proof.
  intros Hs. unfold with_game, gets. rewrite Hs. cbn.
  by rewrite insert_id, state_eta.
Qed.

Lemma with_game_runs {A} (pk : UUID) (s : Session) (method : M Session A)
    (st : St Store) :
  data st !! pk = Some s →
  with_game pk (method ;; gets (λ s : Session, s)) st
    = match method (mkSt s (rng st) (now st)) with
      | (st1, Returned _) =>
          (mkSt (<[pk := data st1]> (data st)) (rng st1) (now st1),
           Returned (data st1))
      | (st1, Raised e) =>
          (mkSt (<[pk := data st1]> (data st)) (rng st1) (now st1), Raised e)
      end.
Proof.
  intros Hs. unfold with_game. rewrite Hs, bind_runs.
  by destruct (method _) as [st1 [a|e]].
Qed.

Lemma bet_endpoint_outcome (pk : option UUID) (request_data : BetRequest)
    (st : St Store) :
  ∃ st' resp,
    bet pk request_data st = (st', Returned resp)
    ∧ ((status_code resp = 200%nat
        ∧ ∃ pk0 action amount s s',
            pk = Some pk0
            ∧ BetActionSerializer request_data = Some (action, amount)
            ∧ data st !! pk0 = Some s
            ∧ Game.phase (game s) = Betting
            ∧ process_bet_action action amount (mkSt s (rng st) (now st))
                = (mkSt s' (rng st') (now st'), Returned (game s'))
            ∧ data st' = <[pk0 := s']> (data st)
            ∧ body resp = GameState s')
       ∨ (st' = st
          ∧ ∃ error, body resp = ErrorBody error
              ∧ ((status_code resp = 404%nat ∧ error = "Game not found")
                 ∨ (status_code resp = 400%nat
                    ∧ error ∈ [ "Invalid game ID format";
                                "Invalid bet action";
                                "Cannot bet in current game phase";
                                "Insufficient chips to call";
                                "Insufficient chips to raise" ])))).
Proof.
  unfold bet. destruct pk as [pk0|].
  2:{ eexists _, _. split; [reflexivity |]. right. split; [done |].
      eexists. split; [done |]. right. split; [done |].
      apply list_elem_of_In. cbn. auto. }
  rewrite bind_runs. unfold attempt at 1. rewrite get_game_state_runs.
  destruct (data st !! pk0) as [s|] eqn:Hs.
  2:{ eexists _, _. split; [reflexivity |]. right. split; [done |].
      eexists. split; [done |]. by left. }
  destruct (BetActionSerializer request_data) as [[action amount]|] eqn:Hgate.
  2:{ eexists _, _. split; [reflexivity |]. right. split; [done |].
      eexists. split; [done |]. right. split; [done |].
      apply list_elem_of_In. cbn. auto. }
  case_decide as Hph.
  { eexists _, _. split; [reflexivity |]. right. split; [done |].
    eexists. split; [done |]. right. split; [done |].
    apply list_elem_of_In. cbn. auto. }
  case_decide; [congruence |].
  rewrite bind_runs. unfold attempt at 1.
  rewrite (with_game_runs pk0 s) by done.
  apply BetActionSerializer_accepts in Hgate as Hok. destruct Hok as (_ & Hmin & Hsome).
  destruct (process_bet_action action amount _) as [st1 [g|e]] eqn:Hrun.
  - assert (g = game (data st1)) as ->.
    { revert Hrun. bet_by_cases (mkSt s (rng st) (now st)) action amount;
        cbv zeta; by intros [= <- <-]. }
    eexists _, _. split; [reflexivity |]. left. split; [done |].
    exists pk0, action, amount, s, (data st1). cbn [data rng now].
    rewrite state_eta. by repeat split.
  - apply bet_raised_behind_gate in Hrun as [-> Herr]; [| done..].
    cbn [data rng now]. rewrite insert_id, state_eta by done.
    destruct Herr as [-> | ->];
      (eexists _, _; split; [reflexivity |]; right; split; [done |];
       eexists; split; [done |]; right; split; [done |];
       apply list_elem_of_In; cbn; auto 10).
Qed.

Lemma dealt_session_well_formed : well_formed dealt_session.
Proof.
  unfold well_formed. repeat match goal with |- _ ∧ _ => split end;
    try (vm_compute; congruence); try reflexivity; try done.
  - apply (bool_decide_unpack _). by vm_compute.
  - repeat constructor; vm_compute; congruence.
  - split; [done | by intros [? [=]]].
Qed.

(** X10. On a store of well-formed sessions, where every game has its
    player row, the bet endpoint always answers a request it was handed,
    with 200, 400 or 404, never with 500.  With 200 the stored session is
    the one the service left, and the body shows it.  With 400 or 404 the
    store, the entropy and the clock are the ones before the request, and
    the error is one of six; the service's complaints about a missing or
    non-positive raise amount are not among them, the serializer having
    refused such requests. *)
Theorem bet_endpoint_all_or_nothing (pk : option UUID) (request_data : BetRequest)
    (st : St Store) :
  map_Forall (λ _, well_formed) (data st) →
  ∃ st' resp,
    bet pk request_data st = (st', Returned resp)
    ∧ ((status_code resp = 200%nat
        ∧ ∃ pk0 action amount s s',
            pk = Some pk0
            ∧ BetActionSerializer request_data = Some (action, amount)
            ∧ data st !! pk0 = Some s
            ∧ Game.phase (game s) = Betting
            ∧ process_bet_action action amount (mkSt s (rng st) (now st))
                = (mkSt s' (rng st') (now st'), Returned (game s'))
            ∧ well_formed s'
            ∧ data st' = <[pk0 := s']> (data st)
            ∧ body resp = GameState s')
       ∨ (st' = st
          ∧ ∃ error, body resp = ErrorBody error
              ∧ ((status_code resp = 404%nat ∧ error = "Game not found")
                 ∨ (status_code resp = 400%nat
                    ∧ error ∈ [ "Invalid game ID format";
                                "Invalid bet action";
                                "Cannot bet in current game phase";
                                "Insufficient chips to call";
                                "Insufficient chips to raise" ])))).
Proof.
  intros Hstore.
  destruct (bet_endpoint_outcome pk request_data st)
    as (st' & resp & Hrun & [(Hok & pk0 & action & amount & s & s' & Hpk & Hgate
                               & Hs & Hph & Hbet & Hd & Hbody) | Hrefused]).
  - exists st', resp. split; [exact Hrun |]. left. split; [exact Hok |].
    exists pk0, action, amount, s, s'.
    do 5 (split; [assumption |]). split; [| by split].
    pose proof (well_formed_bet (mkSt s (rng st) (now st)) action amount
                  (Hstore pk0 s Hs)) as Hwf.
    by rewrite Hbet in Hwf.
  - exists st', resp. split; [exact Hrun |]. by right.
Qed.

Lemma bet_endpoint_all_or_nothing_witness :
  ∃ st' resp,
    bet (Some 7%N) (mkBetRequest (Some "raise") (Some 50))
        (mkSt {[ 7%N := dealt_session ]} [] 51)
      = (st', Returned resp)
    ∧ ((status_code resp = 200%nat
        ∧ ∃ pk0 action amount s s',
            Some 7%N = Some pk0
            ∧ BetActionSerializer (mkBetRequest (Some "raise") (Some 50))
                = Some (action, amount)
            ∧ ({[ 7%N := dealt_session ]} : Store) !! pk0 = Some s
            ∧ Game.phase (game s) = Betting
            ∧ process_bet_action action amount (mkSt s [] 51)
                = (mkSt s' (rng st') (now st'), Returned (game s'))
            ∧ well_formed s'
            ∧ data st' = <[pk0 := s']> {[ 7%N := dealt_session ]}
            ∧ body resp = GameState s')
       ∨ (st' = mkSt {[ 7%N := dealt_session ]} [] 51
          ∧ ∃ error, body resp = ErrorBody error
              ∧ ((status_code resp = 404%nat ∧ error = "Game not found")
                 ∨ (status_code resp = 400%nat
                    ∧ error ∈ [ "Invalid game ID format";
                                "Invalid bet action";
                                "Cannot bet in current game phase";
                                "Insufficient chips to call";
                                "Insufficient chips to raise" ])))).
Proof.
  exact (bet_endpoint_all_or_nothing (Some 7%N)
           (mkBetRequest (Some "raise") (Some 50))
           (mkSt {[ 7%N := dealt_session ]} [] 51)
           (proj2 (map_Forall_singleton (λ _, well_formed) 7%N dealt_session)
                  dealt_session_well_formed)).
Defined.

Lemma DrawActionSerializer_accepts (request_data : option (list Z))
    (discard_indices : list Z) :
  DrawActionSerializer request_data = Some discard_indices →
  request_data = Some discard_indices
  ∧ in_range 5 discard_indices
  ∧ (length discard_indices ≤ 5)%nat
  ∧ NoDup discard_indices.
Proof.
  unfold DrawActionSerializer. destruct request_data as [value|]; [| done].
  case_decide as Hok; [| done]. intros [= <-].
  destruct Hok as (Hrange & Hlen & Hset).
  repeat split; [| done | by apply len_set_NoDup].
  eapply Forall_impl; [exact Hrange |]. intros i Hi. cbn in *. lia.
Qed.

Lemma draw_endpoint_outcome (pk : option UUID)
    (request_data : option (list Z)) (st : St Store) :
  map_Forall (λ _, well_formed) (data st) →
  ∃ st' resp,
    draw pk request_data st = (st', Returned resp)
    ∧ ((status_code resp = 200%nat
        ∧ ∃ pk0 discard_indices s s',
            pk = Some pk0
            ∧ DrawActionSerializer request_data = Some discard_indices
            ∧ data st !! pk0 = Some s
            ∧ Game.phase (game s) = Drawing
            ∧ process_draw_action discard_indices (mkSt s (rng st) (now st))
                = (mkSt s' (rng st') (now st'), Returned (game s'))
            ∧ Game.phase (game s') = Finished
            ∧ data st' = <[pk0 := s']> (data st)
            ∧ body resp = GameState s')
       ∨ (st' = st
          ∧ ∃ error, body resp = ErrorBody error
              ∧ ((status_code resp = 404%nat ∧ error = "Game not found")
                 ∨ (status_code resp = 400%nat
                    ∧ error ∈ [ "Invalid game ID format";
                                "Invalid draw action";
                                "Cannot draw in current game phase" ])))).
Proof.
  intros Hstore. unfold draw. destruct pk as [pk0|].
  2:{ eexists _, _. split; [reflexivity |]. right. split; [done |].
      eexists. split; [done |]. right. split; [done |].
      apply list_elem_of_In. cbn. auto. }
  rewrite bind_runs. unfold attempt at 1. rewrite get_game_state_runs.
  destruct (data st !! pk0) as [s|] eqn:Hs.
  2:{ eexists _, _. split; [reflexivity |]. right. split; [done |].
      eexists. split; [done |]. by left. }
  destruct (DrawActionSerializer request_data) as [idxs|] eqn:Hgate.
  2:{ eexists _, _. split; [reflexivity |]. right. split; [done |].
      eexists. split; [done |]. right. split; [done |].
      apply list_elem_of_In. cbn. auto. }
  case_decide as Hph.
  { eexists _, _. split; [reflexivity |]. right. split; [done |].
    eexists. split; [done |]. right. split; [done |].
    apply list_elem_of_In. cbn. auto. }
  case_decide; [congruence |].
  rewrite bind_runs. unfold attempt at 1.
  rewrite (with_game_runs pk0 s) by done.
  apply DrawActionSerializer_accepts in Hgate as Hok.
  destruct Hok as (_ & Hrange & Hlen & _).
  pose proof (Hstore pk0 s Hs) as Hwf. cbn in Hwf.
  destruct Hwf as (_ & _ & _ & _ & Hfive & Hnd & _).
  destruct (draw_runs (mkSt s (rng st) (now st)) idxs)
    as (st1 & r & Hrun & _ & _ & _ & _ & _ & _ & Hend).
  { done. }
  { cbn. by rewrite Hfive. }
  { done. }
  rewrite Hrun.
  destruct Hend as [(_ & _ & Hshort) | (w & h & -> & Hg & _)].
  { cbn in Hshort. lia. }
  eexists _, _. split; [reflexivity |]. left. split; [done |].
  exists pk0, idxs, s, (data st1). cbn [data rng now].
  rewrite state_eta. repeat split; try done. by rewrite Hg.
Qed.

(** X11. On a store of well-formed sessions the draw endpoint always
    answers, with 200, 400 or 404, never with 500.  With 200 the game was
    in Drawing, the stored session is the one the service left, in phase
    Finished, and the body shows it.  With 400 or 404 the store, the
    entropy and the clock are the ones before the request, and the error
    is one of four; the service's invalid-index error is not among them. *)
Theorem draw_endpoint_all_or_nothing (pk : option UUID)
    (request_data : option (list Z)) (st : St Store) :
  map_Forall (λ _, well_formed) (data st) →
  ∃ st' resp,
    draw pk request_data st = (st', Returned resp)
    ∧ ((status_code resp = 200%nat
        ∧ ∃ pk0 discard_indices s s',
            pk = Some pk0
            ∧ DrawActionSerializer request_data = Some discard_indices
            ∧ data st !! pk0 = Some s
            ∧ Game.phase (game s) = Drawing
            ∧ process_draw_action discard_indices (mkSt s (rng st) (now st))
                = (mkSt s' (rng st') (now st'), Returned (game s'))
            ∧ Game.phase (game s') = Finished
            ∧ data st' = <[pk0 := s']> (data st)
            ∧ body resp = GameState s')
       ∨ (st' = st
          ∧ ∃ error, body resp = ErrorBody error
              ∧ ((status_code resp = 404%nat ∧ error = "Game not found")
                 ∨ (status_code resp = 400%nat
                    ∧ error ∈ [ "Invalid game ID format";
                                "Invalid draw action";
                                "Cannot draw in current game phase" ])))).
Proof. apply draw_endpoint_outcome. Qed.

Lemma called_session_well_formed : well_formed called_session.
Proof.
  unfold well_formed. repeat match goal with |- _ ∧ _ => split end;
    try (vm_compute; congruence); try reflexivity; try done.
  - apply (bool_decide_unpack _). by vm_compute.
  - repeat constructor; vm_compute; congruence.
  - split; [done | by intros [? [=]]].
Qed.

Lemma draw_endpoint_all_or_nothing_witness :
  ∃ st' resp,
    draw (Some 7%N) (Some [0; 2; 4]) (mkSt {[ 7%N := called_session ]} [3; 1; 4]%nat 52)
      = (st', Returned resp)
    ∧ ((status_code resp = 200%nat
        ∧ ∃ pk0 discard_indices s s',
            Some 7%N = Some pk0
            ∧ DrawActionSerializer (Some [0; 2; 4]) = Some discard_indices
            ∧ ({[ 7%N := called_session ]} : Store) !! pk0 = Some s
            ∧ Game.phase (game s) = Drawing
            ∧ process_draw_action discard_indices (mkSt s [3; 1; 4]%nat 52)
                = (mkSt s' (rng st') (now st'), Returned (game s'))
            ∧ Game.phase (game s') = Finished
            ∧ data st' = <[pk0 := s']> {[ 7%N := called_session ]}
            ∧ body resp = GameState s')
       ∨ (st' = mkSt {[ 7%N := called_session ]} [3; 1; 4]%nat 52
          ∧ ∃ error, body resp = ErrorBody error
              ∧ ((status_code resp = 404%nat ∧ error = "Game not found")
                 ∨ (status_code resp = 400%nat
                    ∧ error ∈ [ "Invalid game ID format";
                                "Invalid draw action";
                                "Cannot draw in current game phase" ])))).
Proof.
  exact (draw_endpoint_all_or_nothing (Some 7%N) (Some [0; 2; 4])
           (mkSt {[ 7%N := called_session ]} [3; 1; 4]%nat 52)
           (proj2 (map_Forall_singleton (λ _, well_formed) 7%N called_session)
                  called_session_well_formed)).
Defined.

Lemma retrieve_endpoint_reads (pk : option UUID) (st : St Store) :
  ∃ resp,
    retrieve pk st = (st, Returned resp)
    ∧ match pk with
      | None =>
          resp = mkResponse (ErrorBody "Invalid game ID format") 400
      | Some pk0 =>
          match data st !! pk0 with
          | Some s => resp = mkResponse (GameState s) 200
          | None => resp = mkResponse (ErrorBody "Game not found") 404
          end
      end.
Proof.
  unfold retrieve. destruct pk as [pk0|]; [| by eexists].
  rewrite bind_runs. unfold attempt at 1.
  rewrite bind_runs, get_game_state_runs.
  destruct (data st !! pk0) as [s|] eqn:Hs; [| by eexists].
  rewrite (with_game_reads pk0 s st Hs). by eexists.
Qed.


(** X13. On a free primary key the create endpoint answers 201 with the
    session of the new game: well formed, in Betting with an empty pot,
    and stored under the game's key beside the sessions there were; the
    retrieve endpoint then answers 200 with the same session. *)
Theorem create_endpoint_lays_a_table (st : St Store) :
  data st !! N.of_nat (hd 0%nat (rng st)) = None →
  ∃ st' s,
    create st = (st', Returned (mkResponse (GameState s) 201))
    ∧ well_formed s
    ∧ Game.phase (game s) = Betting
    ∧ Game.pot (game s) = 0
    ∧ data st' = <[Game.id (game s) := s]> (data st)
    ∧ retrieve (Some (Game.id (game s))) st'
        = (st', Returned (mkResponse (GameState s) 200)).
Proof.
  intros Hfree. destruct (create_new_game_returns st Hfree) as (st' & g & Hrun).
  destruct (create_new_game_lays st st' g Hrun) as (s & _ & Hd & <- & Hg & Hwf).
  assert (data st' !! Game.id (game s) = Some s) as Hs
    by (rewrite Hd; apply lookup_insert_eq).
  exists st', s. unfold create, retrieve.
  rewrite !bind_runs. unfold attempt. rewrite !bind_runs, Hrun.
  rewrite get_game_state_runs, Hs, (with_game_reads _ s st' Hs).
  rewrite Hg. cbn. rewrite Hg in Hd. cbn in Hd.
  split; [reflexivity |]. split; [exact Hwf |]. by repeat split.
Qed.

Lemma create_endpoint_lays_a_table_witness :
  ∃ st' s,
    create (mkSt ∅ [7; 100; 200; 300]%nat 50)
      = (st', Returned (mkResponse (GameState s) 201))
    ∧ well_formed s
    ∧ Game.phase (game s) = Betting
    ∧ Game.pot (game s) = 0
    ∧ data st' = <[Game.id (game s) := s]> ∅
    ∧ retrieve (Some (Game.id (game s))) st'
        = (st', Returned (mkResponse (GameState s) 200)).
Proof.
  apply (create_endpoint_lays_a_table (mkSt ∅ [7; 100; 200; 300]%nat 50)).
  reflexivity.
Defined.

(** X14. The four endpoints keep a store of well-formed sessions well
    formed, whatever the request and whatever the answer. *)
Theorem endpoints_keep_the_store_well_formed (st : St Store) :
  map_Forall (λ _, well_formed) (data st) →
  map_Forall (λ _, well_formed) (data (create st).1)
  ∧ (∀ pk, map_Forall (λ _, well_formed) (data (retrieve pk st).1))
  ∧ (∀ pk request_data,
       map_Forall (λ _, well_formed) (data (bet pk request_data st).1))
  ∧ (∀ pk request_data,
       map_Forall (λ _, well_formed) (data (draw pk request_data st).1)).
Proof.
  intros Hstore. split; [| split; [| split]].
  - unfold create. rewrite bind_runs. unfold attempt at 1. rewrite bind_runs.
    destruct (create_new_game st) as [st' [g|e]] eqn:Hrun.
    + destruct (create_new_game_lays st st' g Hrun) as (s & _ & Hd & <- & _ & Hwf).
      rewrite (with_game_reads _ s st') by (rewrite Hd; apply lookup_insert_eq).
      cbn. rewrite Hd. by apply map_Forall_insert_2.
    + apply create_new_game_outcome in Hrun as [(Hd & _) | (? & _ & _ & [=] & _)].
      cbn. by rewrite Hd.
  - intros pk. by destruct (retrieve_endpoint_reads pk st) as (resp & -> & _).
  - intros pk req.
    destruct (bet_endpoint_outcome pk req st)
      as (st' & resp & -> & [(_ & pk0 & action & amount & s & s' & _ & _ & Hs & _
                                & Hrun & Hd & _) | (-> & _)]); cbn [fst]; [| done].
    rewrite Hd. apply map_Forall_insert_2; [| done].
    pose proof (well_formed_bet (mkSt s (rng st) (now st)) action amount
                  (Hstore pk0 s Hs)) as Hwf.
    by rewrite Hrun in Hwf.
  - intros pk req.
    destruct (draw_endpoint_outcome pk req st Hstore)
      as (st' & resp & -> & [(_ & pk0 & idxs & s & s' & _ & _ & Hs & _
                                & Hrun & _ & Hd & _) | (-> & _)]); cbn [fst]; [| done].
    rewrite Hd. apply map_Forall_insert_2; [| done].
    pose proof (well_formed_draw (mkSt s (rng st) (now st)) idxs
                  (Hstore pk0 s Hs)) as Hwf.
    by rewrite Hrun in Hwf.
Qed.

Lemma endpoints_keep_the_store_well_formed_witness :
  map_Forall (λ _, well_formed)
    (data (create (mkSt {[ 7%N := called_session ]} [] 60)).1)
  ∧ (∀ pk, map_Forall (λ _, well_formed)
             (data (retrieve pk (mkSt {[ 7%N := called_session ]} [] 60)).1))
  ∧ (∀ pk request_data,
       map_Forall (λ _, well_formed)
         (data (bet pk request_data (mkSt {[ 7%N := called_session ]} [] 60)).1))
  ∧ (∀ pk request_data,
       map_Forall (λ _, well_formed)
         (data (draw pk request_data (mkSt {[ 7%N := called_session ]} [] 60)).1)).
Proof.
  exact (endpoints_keep_the_store_well_formed
           (mkSt {[ 7%N := called_session ]} [] 60)
           (proj2 (map_Forall_singleton (λ _, well_formed) 7%N called_session)
                  called_session_well_formed)).
Defined.
